(** * m3u-editor: playlist codec, edit history, duplicate finder, stream validator

    A shallow embedding of [m3u_editor.py] and the properties of its core:
    the [M3UEntry] serializer and the [M3UParser] line parser, the
    undo/redo history of [M3UEditorWindow], its move and duplicate
    operations, and the [StreamValidator] worker.

    Conventions of the embedding.
    - A Python [str] is a [string]; a character is a code point below 256
      (the [ascii] type), which is the alphabet all definitions below are
      stated over.
    - Python lists are Rocq lists; [copy.deepcopy] of a list of entries is the
      identity, because values here are immutable.
    - A Python exception that leaves a function is the [None] of an option.
    - The network, the cancellation flag and the Qt signals of the validator
      are events of a small interaction type, see [prog]. *)

From Stdlib Require Import ZArith NArith Ascii String List Bool Lia Sorted.
From stdpp Require Import base option list strings gmap pretty.

Local Open Scope string_scope.
Local Open Scope list_scope.

(** String append reduces on a constructor, as list append does. *)
Local Arguments String.append !s1 s2 : simpl nomatch.

(* ===================================================================== *)
(** ** Characters *)
(* ===================================================================== *)

Definition LF : ascii := "010"%char.
Definition CR : ascii := "013"%char.
Definition dquote : ascii := "034"%char.
Definition comma : ascii := ","%char.
Definition hash : ascii := "#"%char.

(** The one-character string, as in the Python literal ['\n']. *)
Definition chr (c : ascii) : string := String c "".

(* ===================================================================== *)
(** ** The Python string methods the program calls *)
(* ===================================================================== *)

Module Py.

(** [str.isspace] on one code point below 256: TAB, LF, VT, FF, CR,
    FS, GS, RS, US, SPACE, NEL and NBSP. *)
Definition isspace (c : ascii) : bool :=
  let n := N_of_ascii c in
  ((9 <=? n) && (n <=? 13) || (28 <=? n) && (n <=? 32)
   || (n =? 133) || (n =? 160))%N.

(** [str.lower] on one code point below 256: A-Z and the Latin-1 capitals
    (all of 192..222 but the multiplication sign 215). *)
Definition lower_char (c : ascii) : ascii :=
  let n := N_of_ascii c in
  if ((65 <=? n) && (n <=? 90)
      || (192 <=? n) && (n <=? 222) && negb (n =? 215))%N
  then ascii_of_N (n + 32) else c.

Fixpoint lower (s : string) : string :=
  match s with
  | "" => ""
  | String c s' => String (lower_char c) (lower s')
  end.

Fixpoint lstrip (s : string) : string :=
  match s with
  | "" => ""
  | String c s' => if isspace c then lstrip s' else s
  end.

Fixpoint rstrip (s : string) : string :=
  match s with
  | "" => ""
  | String c s' =>
      match rstrip s' with
      | "" => if isspace c then "" else chr c
      | r => String c r
      end
  end.

(** [s.strip()] *)
Definition strip (s : string) : string := rstrip (lstrip s).

(** [s.startswith(p)] *)
Fixpoint startswith (s p : string) : bool :=
  match p, s with
  | "", _ => true
  | String a p', String b s' => if Ascii.eqb a b then startswith s' p' else false
  | String _ _, "" => false
  end.

(** [s.endswith(p)] *)
Fixpoint endswith (s p : string) : bool :=
  if String.eqb s p then true
  else match s with
       | "" => false
       | String _ s' => endswith s' p
       end.

(** The slice [s[n:]]. *)
Fixpoint slice_from (n : nat) (s : string) : string :=
  match n, s with
  | O, _ => s
  | S n', String _ s' => slice_from n' s'
  | S _, "" => ""
  end.

(** [s.split(sep)] for a one-character separator: never the empty list. *)
Fixpoint split (sep : ascii) (s : string) : list string :=
  match s with
  | "" => [""]
  | String c s' =>
      if Ascii.eqb c sep then "" :: split sep s'
      else match split sep s' with
           | f :: fs => String c f :: fs
           | [] => [chr c]
           end
  end.

(** [s.split(sep, 1)]: at most one cut, at the first separator. *)
Fixpoint split1 (sep : ascii) (s : string) : list string :=
  match s with
  | "" => [""]
  | String c s' =>
      if Ascii.eqb c sep then [""; s']
      else match split1 sep s' with
           | f :: fs => String c f :: fs
           | [] => [chr c]
           end
  end.

(** [l[-1]]: [None] is Python's IndexError on the empty list. *)
Definition last_item {A} (l : list A) : option A := List.last (Some <$> l) None.

(** [sep.join(l)] *)
Fixpoint join (sep : string) (l : list string) : string :=
  match l with
  | [] => ""
  | [x] => x
  | x :: l' => x +:+ sep +:+ join sep l'
  end.

(** Every character of [s] satisfies [p]. *)
Fixpoint all (p : ascii -> bool) (s : string) : bool :=
  match s with
  | "" => true
  | String c s' => p c && all p s'
  end.

End Py.

(* ===================================================================== *)
(** ** The fragment of Python's [re] the parser uses

    A backtracking matcher with Python's semantics (greedy repetition,
    leftmost first match) for patterns that are a sequence of literals,
    greedy repetitions of one character class, capture groups around such a
    repetition, and the end anchor. *)
(* ===================================================================== *)

Module Re.

Inductive item : Type :=
| Lit (s : string)                        (* literal text *)
| Rep (cls : ascii -> bool) (least : nat) (* cls* (least 0), cls+ (least 1) *)
| Cap (cls : ascii -> bool) (least : nat) (* the same inside a group ( ) *)
| Eos.                                    (* $ *)

Definition pattern := list item.

(** [.] : any character but a newline. *)
Definition dot (c : ascii) : bool := negb (Ascii.eqb c LF).
(** [[-0-9]] *)
Definition minus_digit (c : ascii) : bool :=
  Ascii.eqb c "-"%char || ((48 <=? N_of_ascii c) && (N_of_ascii c <=? 57))%N.
(** The class of every character but the double quote. *)
Definition not_dquote (c : ascii) : bool := negb (Ascii.eqb c dquote).

(** [strip_prefix p s] is [Some r] when [s = p ++ r]. *)
Fixpoint strip_prefix (p s : string) : option string :=
  match p, s with
  | "", _ => Some s
  | String a p', String b s' => if Ascii.eqb a b then strip_prefix p' s' else None
  | String _ _, "" => None
  end.

(** [$] matches at the end of the string and before a final newline. *)
Definition at_end (s : string) : bool :=
  match s with
  | "" => true
  | String c "" => Ascii.eqb c LF
  | _ => false
  end.

(** Greedy repetition: take as many [cls] characters as there are, then
    give them back one at a time until the continuation [k] succeeds.
    [acc] is what has been taken so far. *)
Fixpoint greedy {A} (cls : ascii -> bool) (least : nat)
    (k : string -> string -> option A) (acc s : string) : option A :=
  let stop := if (least <=? String.length acc)%nat then k acc s else None in
  match s with
  | String c s' =>
      if cls c then
        match greedy cls least k (acc +:+ chr c) s' with
        | Some r => Some r
        | None => stop
        end
      else stop
  | "" => stop
  end.

(** Match the pattern at the start of [s]; the result lists the groups. *)
Fixpoint exec (p : pattern) (s : string) : option (list string) :=
  match p with
  | [] => Some []
  | Lit l :: p' =>
      match strip_prefix l s with
      | Some s' => exec p' s'
      | None => None
      end
  | Rep cls least :: p' => greedy cls least (fun _ s' => exec p' s') "" s
  | Cap cls least :: p' =>
      greedy cls least (fun g s' => cons g <$> exec p' s') "" s
  | Eos :: p' => if at_end s then exec p' s else None
  end.

(** [re.match(p, s)] *)
Definition rmatch (p : pattern) (s : string) : option (list string) := exec p s.

(** [re.search(p, s)]: the leftmost position where [p] matches. *)
Fixpoint search (p : pattern) (s : string) : option (list string) :=
  match exec p s with
  | Some m => Some m
  | None =>
      match s with
      | "" => None
      | String _ s' => search p s'
      end
  end.

(** [m.group(i)] for [i >= 1]. *)
Definition group (m : list string) (i : nat) : string := nth (i - 1) m "".

End Re.

(* ===================================================================== *)
(** ** Data model: [M3UEntry] *)
(* ===================================================================== *)

Record M3UEntry : Type := mkEntry {
  name : string;
  url : string;
  group : string;
  logo : string;
  duration : string;
  user_agent : string;
  raw_extinf : string
}.

(** The dataclass constructor with its defaults, [M3UEntry(name=.., url=..)]. *)
Definition new_entry (n u : string) : M3UEntry :=
  {| name := n; url := u; group := ""; logo := ""; duration := "-1";
     user_agent := ""; raw_extinf := "" |}.

Definition set_name (v : string) (e : M3UEntry) : M3UEntry :=
  mkEntry v (url e) (group e) (logo e) (duration e) (user_agent e) (raw_extinf e).
Definition set_url (v : string) (e : M3UEntry) : M3UEntry :=
  mkEntry (name e) v (group e) (logo e) (duration e) (user_agent e) (raw_extinf e).
Definition set_group (v : string) (e : M3UEntry) : M3UEntry :=
  mkEntry (name e) (url e) v (logo e) (duration e) (user_agent e) (raw_extinf e).
Definition set_logo (v : string) (e : M3UEntry) : M3UEntry :=
  mkEntry (name e) (url e) (group e) v (duration e) (user_agent e) (raw_extinf e).
Definition set_duration (v : string) (e : M3UEntry) : M3UEntry :=
  mkEntry (name e) (url e) (group e) (logo e) v (user_agent e) (raw_extinf e).
Definition set_user_agent (v : string) (e : M3UEntry) : M3UEntry :=
  mkEntry (name e) (url e) (group e) (logo e) (duration e) v (raw_extinf e).

(** Python truthiness of a string: [if s:]. *)
Definition truthy (s : string) : bool := negb (String.eqb s "").

(** [M3UEntry.to_m3u_string] *)
Definition to_m3u_string (e : M3UEntry) : string :=
  let attributes :=
    ((if truthy (group e)
      then ["group-title=" +:+ chr dquote +:+ group e +:+ chr dquote] else [])
     ++ (if truthy (logo e)
         then ["tvg-logo=" +:+ chr dquote +:+ logo e +:+ chr dquote] else []))%list in
  let attr_str := Py.join " " attributes in
  let attr_str := if truthy attr_str then " " +:+ attr_str else attr_str in
  let lines :=
    (["#EXTINF:" +:+ duration e +:+ attr_str +:+ "," +:+ name e]
     ++ (if truthy (user_agent e)
         then ["#EXTVLCOPT:http-user-agent=" +:+ user_agent e] else [])
     ++ [url e])%list in
  Py.join (chr LF) lines.

(* ===================================================================== *)
(** ** [M3UParser.parse_lines] *)
(* ===================================================================== *)

(** The pattern of the metadata line: the text #EXTINF: , group 1 = one or
    more of [-0-9], group 2 = any characters, a comma, group 3 = any
    characters, the end of the line. *)
Definition extinf_re : Re.pattern :=
  [Re.Lit "#EXTINF:"; Re.Cap Re.minus_digit 1; Re.Cap Re.dot 0;
   Re.Lit ","; Re.Cap Re.dot 0; Re.Eos].

(** The pattern group-title=Q...Q with Q the double quote and group 1 = the
    characters other than Q between them. *)
Definition group_re : Re.pattern :=
  [Re.Lit ("group-title=" +:+ chr dquote); Re.Cap Re.not_dquote 0;
   Re.Lit (chr dquote)].

(** The pattern tvg-logo=Q...Q, likewise. *)
Definition logo_re : Re.pattern :=
  [Re.Lit ("tvg-logo=" +:+ chr dquote); Re.Cap Re.not_dquote 0;
   Re.Lit (chr dquote)].

(** The two variables the loop of [parse_lines] carries. *)
Record pstate : Type := mkPstate {
  entries_of : list M3UEntry;
  current_entry : option M3UEntry
}.

(** The body of the branch for a line starting with #EXTINF: the entry that
    becomes [current_entry]. *)
Definition parse_extinf (line : string) : option M3UEntry :=
  let cur := new_entry "" "" in
  match Re.rmatch extinf_re line with
  | Some m =>
      let cur := set_duration (Re.group m 1) cur in
      let attrs := Re.group m 2 in
      let cur := set_name (Py.strip (Re.group m 3)) cur in
      let cur := match Re.search group_re attrs with
                 | Some g => set_group (Re.group g 1) cur
                 | None => cur
                 end in
      let cur := match Re.search logo_re attrs with
                 | Some l => set_logo (Re.group l 1) cur
                 | None => cur
                 end in
      Some cur
  | None =>
      n ← Py.last_item (Py.split comma line);
      Some (set_name n cur)
  end.

(** One iteration of the [for line in lines] loop. *)
Definition parse_line (st : pstate) (line : string) : option pstate :=
  let line := Py.strip line in
  if negb (truthy line) then Some st
  else if Py.startswith line "#EXTM3U" then Some st
  else if Py.startswith line "#EXTINF:" then
    cur ← parse_extinf line;
    Some (mkPstate (entries_of st) (Some cur))
  else if Py.startswith line "#EXTVLCOPT:" then
    match current_entry st with
    | Some cur =>
        let opt := Py.strip (Py.slice_from 11 line) in
        if Py.startswith (Py.lower opt) "http-user-agent=" then
          ua ← Py.split1 "="%char opt !! 1%nat;
          Some (mkPstate (entries_of st) (Some (set_user_agent ua cur)))
        else Some st
    | None => Some st
    end
  else if negb (Py.startswith line "#") then
    match current_entry st with
    | Some cur => Some (mkPstate (entries_of st ++ [set_url line cur])%list None)
    | None => Some (mkPstate (entries_of st ++ [new_entry "Unknown" line])%list None)
    end
  else Some st.

Fixpoint parse_loop (st : pstate) (lines : list string) : option pstate :=
  match lines with
  | [] => Some st
  | line :: rest => st' ← parse_line st line; parse_loop st' rest
  end.

(** [M3UParser.parse_lines] *)
Definition parse_lines (lines : list string) : option (list M3UEntry) :=
  entries_of <$> parse_loop (mkPstate [] None) lines.

(* ===================================================================== *)
(** ** [M3UParser.save_file] and [M3UParser.parse_file]

    A file is its text. [save_file] writes the header and then every entry
    followed by a newline; [parse_file] reads the lines back with
    [f.readlines()], which in text mode ends a line at LF, CR or CR LF and
    hands each terminator over as LF. *)
(* ===================================================================== *)

Fixpoint write_entries (entries : list M3UEntry) : string :=
  match entries with
  | [] => ""
  | entry :: rest => (to_m3u_string entry +:+ chr LF) +:+ write_entries rest
  end.

(** The text [save_file] leaves in the file. *)
Definition save_file (entries : list M3UEntry) : string :=
  ("#EXTM3U" +:+ chr LF) +:+ write_entries entries.

(** [f.readlines()]; [after_cr] tells that the previous character was a CR,
    whose line is closed already, so that a LF now belongs to it. *)
Fixpoint readlines_from (after_cr : bool) (text : string) : list string :=
  match text with
  | "" => []
  | String c text' =>
      if Ascii.eqb c LF then
        if after_cr then readlines_from false text'
        else chr LF :: readlines_from false text'
      else if Ascii.eqb c CR then chr LF :: readlines_from true text'
      else match readlines_from false text' with
           | [] => [chr c]
           | l :: ls => String c l :: ls
           end
  end.

Definition readlines (text : string) : list string := readlines_from false text.

(** [M3UParser.parse_file] on the text of the file. *)
Definition parse_file (text : string) : option (list M3UEntry) :=
  parse_lines (readlines text).

(* ===================================================================== *)
(** ** [M3UEditorWindow]: the model, the history and the table

    [table] is the UserRole entry of every row of the table widget, in the
    visual order of the rows; [selected_rows] is what
    [selectionModel().selectedRows()] returns; [header_sort] is the sort
    indicator of the horizontal header, its section and whether the order
    is descending. The Python lists used as stacks keep their order: index 0
    is the oldest snapshot, [append] adds at the end and [pop()] takes the
    end. *)
(* ===================================================================== *)

Record Window : Type := mkWindow {
  entries : list M3UEntry;
  undo_stack : list (list M3UEntry);
  redo_stack : list (list M3UEntry);
  table : list M3UEntry;
  selected_rows : list nat;
  status_label : string;
  header_sort : nat * bool
}.

Definition set_entries (v : list M3UEntry) (w : Window) : Window :=
  mkWindow v (undo_stack w) (redo_stack w) (table w) (selected_rows w)
    (status_label w) (header_sort w).
Definition set_undo_stack (v : list (list M3UEntry)) (w : Window) : Window :=
  mkWindow (entries w) v (redo_stack w) (table w) (selected_rows w)
    (status_label w) (header_sort w).
Definition set_redo_stack (v : list (list M3UEntry)) (w : Window) : Window :=
  mkWindow (entries w) (undo_stack w) v (table w) (selected_rows w)
    (status_label w) (header_sort w).
Definition set_table (v : list M3UEntry) (w : Window) : Window :=
  mkWindow (entries w) (undo_stack w) (redo_stack w) v (selected_rows w)
    (status_label w) (header_sort w).
Definition set_selected_rows (v : list nat) (w : Window) : Window :=
  mkWindow (entries w) (undo_stack w) (redo_stack w) (table w) v
    (status_label w) (header_sort w).
Definition set_status (v : string) (w : Window) : Window :=
  mkWindow (entries w) (undo_stack w) (redo_stack w) (table w) (selected_rows w)
    v (header_sort w).

(** [M3UEditorWindow.__init__]: nothing loaded, empty history; the header
    of a new table has its sort indicator on section 0, descending. *)
Definition init_window : Window := mkWindow [] [] [] [] [] "Ready" (0%nat, true).

(** [l.pop(0)] as a statement: what is left of the list. *)
Definition pop_front {A} (l : list A) : list A := tail l.

(** [l.pop()]: what is left and the item taken, [None] on the empty list. *)
Definition pop {A} (l : list A) : option (list A * A) :=
  x ← Py.last_item l; Some (removelast l, x).

(** The text of a row in a column of the table: Group, Name, URL. *)
Definition column_text (col : nat) (e : M3UEntry) : string :=
  match col with
  | 0%nat => group e
  | 1%nat => name e
  | _ => url e
  end.

(** Stable insertion: [x] goes behind the rows that come [before] it. *)
Fixpoint insert_row (before : M3UEntry -> M3UEntry -> bool) (x : M3UEntry)
    (rows : list M3UEntry) : list M3UEntry :=
  match rows with
  | [] => [x]
  | y :: rows' => if before y x then y :: insert_row before x rows' else x :: rows
  end.

(** What [setSortingEnabled(True)] does to the rows: the table widget sorts
    them at once by the text of the header's sort section, in the header's
    order, keeping rows of equal text in their order (a stable sort on the
    code points of the texts). A section the table does not have sorts
    nothing. *)
Definition sort_rows (hs : nat * bool) (rows : list M3UEntry) : list M3UEntry :=
  let '(col, descending) := hs in
  let before y x :=
    if descending then String.ltb (column_text col x) (column_text col y)
    else String.ltb (column_text col y) (column_text col x) in
  if (col <? 3)%nat then foldr (insert_row before) [] rows else rows.

(** [refresh_table]: the rows are rebuilt from [self.entries], which drops
    the selection, and sorting is switched on again, which sorts them. *)
Definition refresh_table (w : Window) : Window :=
  set_selected_rows [] (set_table (sort_rows (header_sort w) (entries w)) w).

(** [sync_entries_from_table]: [self.entries] becomes the rows' entries in
    visual order. *)
Definition sync_entries_from_table (w : Window) : Window :=
  set_entries (table w) w.

(** [save_undo_state] *)
Definition save_undo_state (w : Window) : Window :=
  let w := if (50 <? length (undo_stack w))%nat
           then set_undo_stack (pop_front (undo_stack w)) w else w in
  let w := set_undo_stack (undo_stack w ++ [entries w])%list w in
  let w := set_redo_stack [] w in
  set_status "State saved." w.

(** [undo] *)
Definition undo (w : Window) : Window :=
  match pop (undo_stack w) with
  | None => (* [if not self.undo_stack] *)
      set_status "Nothing to undo." w
  | Some (rest, top) =>
      let w := set_redo_stack (redo_stack w ++ [entries w])%list w in
      let w := set_entries top (set_undo_stack rest w) in
      set_status "Undone last action." (refresh_table w)
  end.

(** [redo] *)
Definition redo (w : Window) : Window :=
  match pop (redo_stack w) with
  | None => (* [if not self.redo_stack] *)
      set_status "Nothing to redo." w
  | Some (rest, top) =>
      let w := set_undo_stack (undo_stack w ++ [entries w])%list w in
      let w := set_entries top (set_redo_stack rest w) in
      set_status "Redone last action." (refresh_table w)
  end.

(** [add_entry] *)
Definition add_entry (w : Window) : Window :=
  let w := save_undo_state w in
  let new := set_group "Uncategorized" (new_entry "New Channel" "http://") in
  let w := set_entries (entries w ++ [new])%list w in
  let w := refresh_table w in
  set_selected_rows [(length (entries w) - 1)%nat] w.

(** The tuple assignment [l[i], l[j] = l[j], l[i]]: the right side is read
    first, and reading outside the list raises IndexError. *)
Definition swap {A} (i j : nat) (l : list A) : option (list A) :=
  a ← l !! j; b ← l !! i; Some (<[j:=b]> (<[i:=a]> l)).

(** [move_up] *)
Definition move_up (w : Window) : option Window :=
  let w := save_undo_state w in
  let w := sync_entries_from_table w in
  match selected_rows w with
  | [] => Some w
  | row :: _ =>
      if (0 <? row)%nat then
        es ← swap row (row - 1) (entries w);
        let w := refresh_table (set_entries es w) in
        Some (set_selected_rows [(row - 1)%nat] w)
      else Some w
  end.

(** [move_down] *)
Definition move_down (w : Window) : option Window :=
  let w := save_undo_state w in
  let w := sync_entries_from_table w in
  match selected_rows w with
  | [] => Some w
  | row :: _ =>
      if (Z.of_nat row <? Z.of_nat (length (entries w)) - 1)%Z then
        es ← swap row (row + 1) (entries w);
        let w := refresh_table (set_entries es w) in
        Some (set_selected_rows [(row + 1)%nat] w)
      else Some w
  end.

(** The loop of [find_duplicates] over [enumerate(self.entries)], from index
    [i] on, with the set [seen_urls] and the list [duplicate_rows]. *)
Fixpoint find_duplicates_loop (i : nat) (es : list M3UEntry)
    (seen_urls : gset string) (duplicate_rows : list nat) : list nat :=
  match es with
  | [] => duplicate_rows
  | entry :: rest =>
      if decide (url entry ∈ seen_urls)
      then find_duplicates_loop (S i) rest seen_urls (duplicate_rows ++ [i])%list
      else find_duplicates_loop (S i) rest ({[url entry]} ∪ seen_urls) duplicate_rows
  end.

(** [find_duplicates]: the rows it collects in [duplicate_rows]. *)
Definition find_duplicates (w : Window) : list nat :=
  find_duplicates_loop 0 (entries w) ∅ [].

(* ===================================================================== *)
(** ** [StreamValidator]

    The worker talks to three things outside itself: the network
    ([urllib.request.urlopen]), the flag [is_running] that [stop] clears
    from another thread, and the Qt signals it emits. Each is an event; a
    program is a finite tree of events. *)
(* ===================================================================== *)

Inductive method : Type := HEAD | GET.

(** What one [urlopen] call does: it returns a response with a status, or
    raises [urllib.error.HTTPError] with a code, or raises another
    [Exception] (a timeout, a transport error, a malformed URL) whose
    [str(e)] is [msg]. *)
Inductive response : Type :=
| Status (status : Z)
| HTTPError (code : Z)
| OtherError (msg : string).

(** The signals: [result], [progress], and [finished], which QThread emits
    itself when [run] returns. *)
Inductive signal : Type :=
| result (row : nat) (is_valid : bool) (msg : string)
| progress (current total : nat)
| finished.

Inductive event : Type -> Type :=
| UrlOpen (m : method) (target : string) (ua_header : string) : event response
| IsRunning : event bool
| Emit (s : signal) : event unit.

Inductive prog (A : Type) : Type :=
| Ret (a : A)
| Vis {X : Type} (e : event X) (k : X -> prog A).
Arguments Ret {A} a.
Arguments Vis {A X} e k.

Fixpoint bind {A B} (m : prog A) (f : A -> prog B) : prog B :=
  match m with
  | Ret a => f a
  | Vis e k => Vis e (fun x => bind (k x) f)
  end.

Notation "x <~ m ;; f" := (bind m (fun x => f))
  (at level 100, m at level 99, right associativity).
Notation "m ;;; f" := (bind m (fun _ => f))
  (at level 100, right associativity).

Definition trigger {X} (e : event X) : prog X := Vis e Ret.

Definition default_user_agent : string :=
  "Mozilla/5.0 (Windows NT 10.0; Win64; x64) AppleWebKit/537.36 (KHTML, like Gecko) Chrome/91.0.4472.124 Safari/537.36".

(** [200 <= response.status < 400] *)
Definition is_success (status : Z) : bool := ((200 <=? status) && (status <? 400))%Z.

(** What [urlopen] makes of the status the server answers with, when the
    opener does not follow it as a redirect: only a 2xx status comes back
    as a response; for every other status urllib raises HTTPError with that
    code. *)
Definition urlopen_result (server_status : Z) : response :=
  if ((200 <=? server_status) && (server_status <? 300))%Z
  then Status server_status else HTTPError server_status.

(** [StreamValidator.check_url] *)
Definition check_url (target user_agent : string) : prog (bool * string) :=
  let ua := if truthy user_agent then user_agent else default_user_agent in
  r <~ trigger (UrlOpen HEAD target ua) ;;
  match r with
  | Status status =>
      if is_success status then Ret (true, "OK (" +:+ pretty status +:+ ")")
      else Ret (false, "Status: " +:+ pretty status)
  | HTTPError code =>
      if (code =? 405)%Z then
        r' <~ trigger (UrlOpen GET target ua) ;;
        match r' with
        | Status status =>
            if is_success status then Ret (true, "OK (" +:+ pretty status +:+ ")")
            else Ret (false, "HTTP " +:+ pretty code)
        | _ => (* [except: pass] *) Ret (false, "HTTP " +:+ pretty code)
        end
      else Ret (false, "HTTP " +:+ pretty code)
  | OtherError msg => Ret (false, "Error: " +:+ msg)
  end.

(** A task: [(row_index, url, user_agent)]. *)
Definition task : Type := nat * string * string.

(** The loop of [run] from the [i]-th task on. *)
Fixpoint run_loop (total i : nat) (tasks : list task) : prog unit :=
  match tasks with
  | [] => Ret tt
  | (row, target, ua) :: rest =>
      running <~ trigger IsRunning ;;
      if negb running then Ret tt (* break *)
      else
        res <~ check_url target ua ;;
        trigger (Emit (result row (fst res) (snd res))) ;;;
        trigger (Emit (progress (i + 1) total)) ;;;
        run_loop total (S i) rest
  end.

(** [StreamValidator.run] *)
Definition run (tasks : list task) : prog unit :=
  run_loop (length tasks) 0 tasks.

(** What the thread started by [validator_thread.start()] does: [run], then
    the [finished] signal of QThread. *)
Definition thread_main (tasks : list task) : prog unit :=
  run tasks ;;; trigger (Emit finished).

(** *** Running a program against an environment

    The environment answers the events: what the network does with a
    request and what the flag holds, both as functions of the number of
    events that happened before (so the flag may change at any moment, and
    the same request may be answered differently later). The trace records
    every event with its answer. *)

Record env : Type := mkEnv {
  net : nat -> method -> string -> string -> response;
  flag : nat -> bool
}.

Inductive obs : Type :=
| ObsUrlOpen (m : method) (target ua_header : string) (r : response)
| ObsIsRunning (b : bool)
| ObsEmit (s : signal).

Definition answer (E : env) (t : nat) {X} (e : event X) : X * obs :=
  match e in event X return X * obs with
  | UrlOpen m u h => (net E t m u h, ObsUrlOpen m u h (net E t m u h))
  | IsRunning => (flag E t, ObsIsRunning (flag E t))
  | Emit s => (tt, ObsEmit s)
  end.

(** [exec p E t] runs [p] from time [t]: its value and its trace. *)
Fixpoint exec {A} (p : prog A) (E : env) (t : nat) : A * list obs :=
  match p with
  | Ret a => (a, [])
  | Vis e k =>
      let '(x, o) := answer E t e in
      let '(a, tr) := exec (k x) E (S t) in
      (a, o :: tr)
  end.

Definition trace {A} (p : prog A) (E : env) : list obs := snd (exec p E 0).

(* ===================================================================== *)
(** * Properties *)
(* ===================================================================== *)

(* ===================================================================== *)
(** ** Edit history *)
(* ===================================================================== *)

Section History.

Lemma last_item_snoc {A} (l : list A) (x : A) : Py.last_item (l ++ [x]) = Some x.
Proof. unfold Py.last_item. rewrite fmap_app. simpl. apply last_last. Qed.

Lemma pop_nil {A} : pop (@nil A) = None.
Proof. reflexivity. Qed.

Lemma pop_snoc {A} (l : list A) (x : A) : pop (l ++ [x]) = Some (l, x).
Proof. unfold pop. rewrite last_item_snoc. simpl. by rewrite removelast_last. Qed.

Lemma pop_None {A} (l : list A) : pop l = None -> l = [].
Proof.
  destruct l as [|a l] using rev_ind; [done|]. by rewrite pop_snoc.
Qed.

(** A mutation changes the playlist, the table, the selection or the status
    line, and leaves both stacks alone. *)
Definition keeps_history (f : Window -> Window) : Prop :=
  forall w, undo_stack (f w) = undo_stack w /\ redo_stack (f w) = redo_stack w.

(** One edit: snapshot, then mutate. *)
Definition edit (f : Window -> Window) (w : Window) : Window :=
  f (save_undo_state w).

Definition edits (fs : list (Window -> Window)) (w : Window) : Window :=
  fold_left (fun w f => edit f w) fs w.

(** The playlists the edits of [fs] snapshot, oldest first. *)
Fixpoint snaps (fs : list (Window -> Window)) (w : Window) : list (list M3UEntry) :=
  match fs with
  | [] => []
  | f :: fs' => entries w :: snaps fs' (edit f w)
  end.

Lemma snaps_snoc fs f w : snaps (fs ++ [f]) w = snaps fs w ++ [entries (edits fs w)].
Proof.
  revert w. induction fs as [|g fs IH]; intros w; simpl; [done|].
  by rewrite IH.
Qed.

Lemma length_snaps fs w : length (snaps fs w) = length fs.
Proof. revert w. induction fs as [|g fs IH]; intros w; simpl; auto. Qed.

Lemma edits_snoc fs f w : edits (fs ++ [f]) w = edit f (edits fs w).
Proof. unfold edits. by rewrite fold_left_app. Qed.

Lemma undo_stack_save w :
  undo_stack (save_undo_state w) =
  (if (50 <? length (undo_stack w))%nat then pop_front (undo_stack w) else undo_stack w)
    ++ [entries w].
Proof. unfold save_undo_state. by destruct (50 <? length (undo_stack w))%nat. Qed.

Lemma entries_save w : entries (save_undo_state w) = entries w.
Proof. unfold save_undo_state. by destruct (50 <? length (undo_stack w))%nat. Qed.

Lemma redo_stack_save w : redo_stack (save_undo_state w) = [].
Proof. unfold save_undo_state. by destruct (50 <? length (undo_stack w))%nat. Qed.

(** After at most 51 edits the stack ends with all their snapshots. *)
Lemma undo_stack_edits fs w :
  Forall keeps_history fs -> length fs <= 51 ->
  exists base, undo_stack (edits fs w) = base ++ snaps fs w.
Proof.
  induction fs as [|f fs IH] using rev_ind; intros Hk Hlen.
  - exists (undo_stack w). simpl. by rewrite app_nil_r.
  - apply Forall_app in Hk as [Hk Hf]. apply Forall_inv in Hf.
    rewrite length_app in Hlen. simpl in Hlen.
    destruct IH as [base Hbase]; [done | lia |].
    rewrite edits_snoc, snaps_snoc. unfold edit.
    destruct (Hf (save_undo_state (edits fs w))) as [-> _].
    rewrite undo_stack_save, Hbase.
    destruct (50 <? length (base ++ snaps fs w))%nat eqn:Hfull.
    + destruct base as [|b base].
      * apply Nat.ltb_lt in Hfull. simpl in Hfull. rewrite length_snaps in Hfull. lia.
      * exists base. simpl. by rewrite app_assoc.
    + exists base. by rewrite app_assoc.
Qed.

Lemma undo_snoc w base x :
  undo_stack w = base ++ [x] ->
  entries (undo w) = x /\ undo_stack (undo w) = base
  /\ redo_stack (undo w) = redo_stack w ++ [entries w].
Proof. intros H. unfold undo. rewrite H, pop_snoc. done. Qed.

Lemma redo_snoc w base x :
  redo_stack w = base ++ [x] ->
  entries (redo w) = x /\ redo_stack (redo w) = base
  /\ undo_stack (redo w) = undo_stack w ++ [entries w].
Proof. intros H. unfold redo. rewrite H, pop_snoc. done. Qed.

(** Undoing as many times as there are snapshots on top of [base]. *)
Lemma undo_all ss : forall w base,
  undo_stack w = base ++ ss ->
  undo_stack (Nat.iter (length ss) undo w) = base
  /\ entries (Nat.iter (length ss) undo w) = hd (entries w) ss.
Proof.
  induction ss as [|x ss IH] using rev_ind; intros w base H.
  - simpl. by rewrite app_nil_r in H.
  - rewrite length_app. simpl length.
    replace (length ss + 1)%nat with (S (length ss)) by lia.
    rewrite Nat.iter_succ_r.
    rewrite app_assoc in H. apply undo_snoc in H as (He & Hu & _).
    destruct (IH (undo w) base Hu) as [IH1 IH2]. split; [done|].
    rewrite IH2, He. by destruct ss.
Qed.

Lemma undo_empty w : undo_stack w = [] -> undo w = set_status "Nothing to undo." w.
Proof. intros H. unfold undo. by rewrite H. Qed.

Lemma redo_empty w : redo_stack w = [] -> redo w = set_status "Nothing to redo." w.
Proof. intros H. unfold redo. by rewrite H. Qed.

(** Pushing the playlists [ps] one after the other. *)
Definition push_all (ps : list (list M3UEntry)) (w : Window) : Window :=
  fold_left (fun w p => save_undo_state (set_entries p w)) ps w.

(** What the stack holds after any number of snapshots: the last 51. *)
Lemma undo_stack_push_all ps : forall w,
  length (undo_stack w) <= 51 ->
  undo_stack (push_all ps w) =
  drop (length (undo_stack w ++ ps) - 51) (undo_stack w ++ ps).
Proof.
  induction ps as [|p ps IH]; intros w Hw.
  - simpl. rewrite app_nil_r. by replace (_ - 51)%nat with 0%nat by lia.
  - simpl. set (w1 := save_undo_state (set_entries p w)).
    assert (H1 : undo_stack w1 =
                 drop (length (undo_stack w) - 50) (undo_stack w) ++ [p]).
    { unfold w1. rewrite undo_stack_save. simpl.
      destruct (50 <? length (undo_stack w))%nat eqn:E.
      - apply Nat.ltb_lt in E. replace (_ - 50)%nat with 1%nat by lia.
        by destruct (undo_stack w).
      - apply Nat.ltb_ge in E. by replace (_ - 50)%nat with 0%nat by lia. }
    assert (Hlen1 : length (undo_stack w1) <= 51).
    { rewrite H1, length_app, length_drop. simpl. lia. }
    rewrite (IH w1 Hlen1), H1.
    replace (undo_stack w ++ p :: ps) with ((undo_stack w ++ [p]) ++ ps)
      by (by rewrite <- app_assoc).
    destruct (undo_stack w) as [|a u] eqn:Eu.
    { reflexivity. }
    destruct (decide (length (a :: u) <= 50)) as [Hs|Hs].
    + replace (length (a :: u) - 50)%nat with 0%nat by lia. by rewrite drop_0.
    + simpl in Hw, Hs.
      replace (length (a :: u) - 50)%nat with 1%nat by (simpl; lia).
      change (drop 1 (a :: u)) with (drop 0 u). rewrite drop_0.
      set (rest := (u ++ [p]) ++ ps).
      change (((a :: u) ++ [p]) ++ ps) with (a :: rest).
      assert (51 <= length rest) as Hrest.
      { unfold rest. rewrite !length_app. simpl. lia. }
      replace (length (a :: rest) - 51)%nat with (S (length rest - 51))
        by (simpl; lia).
      reflexivity.
Qed.

End History.

(** C8. Undo with an empty undo stack, and redo with an empty redo stack, are
    no-ops reported in the status line: the functions are total (no
    exception), the playlist, both stacks, the table and the selection stay
    as they are, and only the status label changes. *)
Theorem history_underflow_is_noop (w : Window) :
  (undo_stack w = [] ->
     undo w = set_status "Nothing to undo." w
     /\ entries (undo w) = entries w
     /\ undo_stack (undo w) = undo_stack w
     /\ redo_stack (undo w) = redo_stack w)
  /\ (redo_stack w = [] ->
     redo w = set_status "Nothing to redo." w
     /\ entries (redo w) = entries w
     /\ undo_stack (redo w) = undo_stack w
     /\ redo_stack (redo w) = redo_stack w).
Proof.
  split; intros H.
  - rewrite (undo_empty w H). done.
  - rewrite (redo_empty w H). done.
Qed.

Lemma history_underflow_is_noop_witness :
  undo init_window = set_status "Nothing to undo." init_window
  /\ redo init_window = set_status "Nothing to redo." init_window.
Proof.
  destruct (history_underflow_is_noop init_window) as [Hu Hr].
  split.
  - apply Hu. reflexivity.
  - apply Hr. reflexivity.
Defined.

(** C2. After N edits (snapshot, then any mutation that leaves the stacks
    alone), N at most 50, N undos give back the original playlist; a redo
    right after an undo gives back the playlist, and both stacks, as they
    were before the undo; and an edit made after an undo leaves the redo
    stack empty, so that the next redo changes nothing but the status. *)
Theorem undo_redo_roundtrip (fs : list (Window -> Window)) (w : Window)
    (Hfs : Forall keeps_history fs) (HN : length fs <= 50) :
  entries (Nat.iter (length fs) undo (edits fs w)) = entries w
  /\ (forall w', undo_stack w' <> [] ->
        entries (redo (undo w')) = entries w'
        /\ undo_stack (redo (undo w')) = undo_stack w'
        /\ redo_stack (redo (undo w')) = redo_stack w')
  /\ (forall w' f, keeps_history f ->
        redo_stack (edit f (undo w')) = []
        /\ redo (edit f (undo w')) =
           set_status "Nothing to redo." (edit f (undo w'))).
Proof.
  split; [|split].
  - destruct (undo_stack_edits fs w Hfs) as [base Hbase]; [lia|].
    destruct (undo_all (snaps fs w) (edits fs w) base Hbase) as [_ He].
    rewrite length_snaps in He. rewrite He.
    destruct fs; done.
  - intros w' Hne.
    destruct (undo_stack w') as [|x l] eqn:E using rev_ind; [done|]. clear IHl.
    destruct (undo_snoc w' l x E) as (He & Hu & Hr).
    destruct (redo_snoc (undo w') _ _ Hr) as (He' & Hr' & Hu').
    rewrite He', Hr', Hu', Hu, He. done.
  - intros w' f Hf.
    assert (redo_stack (edit f (undo w')) = []) as Hr.
    { unfold edit. destruct (Hf (save_undo_state (undo w'))) as [_ ->].
      apply redo_stack_save. }
    split; [done|]. by apply redo_empty.
Qed.

Lemma undo_redo_roundtrip_witness :
  entries (Nat.iter 2 undo
             (edits [set_entries [new_entry "a" "u"]; set_entries []] init_window))
  = [].
Proof.
  apply (undo_redo_roundtrip [set_entries [new_entry "a" "u"]; set_entries []]
           init_window).
  - repeat constructor.
  - simpl. lia.
Defined.

(** C3 (the code keeps one snapshot more than the bound). Starting from an
    empty history, 51 snapshots of 51 different playlists are all still on
    the undo stack, the oldest included: the stack holds 51 snapshots, not
    50. *)
Theorem undo_stack_holds_51 :
  let ps := map (fun i => [new_entry "ch" (pretty i)]) (seq 0 51) in
  undo_stack (push_all ps init_window) = ps
  /\ length (undo_stack (push_all ps init_window)) = 51%nat
  /\ undo_stack (push_all ps init_window) !! 0%nat = Some [new_entry "ch" "0"].
Proof. vm_compute. done. Qed.

(* ===================================================================== *)
(** ** Moving a row at the boundary *)
(* ===================================================================== *)

(** C9, as the code has it. Moving the first row up, or the last row down,
    swaps nothing and leaves the table alone, but it is not a no-op: the
    call returns the window in which the snapshot has been taken and the
    playlist has been read back from the table. So the rows keep their
    visual order and the selection, the playlist becomes the rows in visual
    order (it is unchanged when the table showed it in its own order), the
    previous playlist is pushed on the undo stack (the oldest snapshot
    leaving it when more than 50 were there), and the redo stack is
    emptied. *)
Theorem move_at_boundary_swaps_nothing (w : Window) (row : nat) (others : list nat) :
  (selected_rows w = 0%nat :: others ->
   move_up w = Some (sync_entries_from_table (save_undo_state w)))
  /\ (selected_rows w = row :: others -> S row = length (table w) ->
   move_down w = Some (sync_entries_from_table (save_undo_state w)))
  /\ (let w' := sync_entries_from_table (save_undo_state w) in
      table w' = table w /\ selected_rows w' = selected_rows w
      /\ header_sort w' = header_sort w
      /\ entries w' = table w
      /\ (table w = entries w -> entries w' = entries w)
      /\ undo_stack w' =
         (if (50 <? length (undo_stack w))%nat
          then pop_front (undo_stack w) else undo_stack w) ++ [entries w]
      /\ redo_stack w' = []).
Proof.
  split; [|split].
  - intros Hsel. unfold move_up, save_undo_state.
    destruct (50 <? length (undo_stack w))%nat; simpl; by rewrite Hsel.
  - intros Hsel Hlast. unfold move_down, save_undo_state.
    assert ((Z.of_nat row <? Z.of_nat (length (table w)) - 1)%Z = false) as Hb
      by (apply Z.ltb_ge; lia).
    destruct (50 <? length (undo_stack w))%nat; simpl; by rewrite Hsel, Hb.
  - unfold save_undo_state.
    destruct (50 <? length (undo_stack w))%nat; simpl; repeat split; auto.
Qed.

Lemma move_at_boundary_swaps_nothing_witness :
  let es := [set_group "News" (new_entry "a" "u1"); set_group "Kids" (new_entry "b" "u2")] in
  let up := set_selected_rows [0%nat] (refresh_table (set_entries es init_window)) in
  let down := set_selected_rows [1%nat] (refresh_table (set_entries es init_window)) in
  (exists w', move_up up = Some w' /\ entries w' = es /\ undo_stack w' = [es])
  /\ (exists w', move_down down = Some w' /\ entries w' = es /\ undo_stack w' = [es]).
Proof.
  intros es up down. split.
  - destruct (move_at_boundary_swaps_nothing up 0 []) as (Hup & _ & _).
    eexists. split; [apply Hup; reflexivity|]. split; reflexivity.
  - destruct (move_at_boundary_swaps_nothing down 1 []) as (_ & Hdown & _).
    eexists. split; [apply Hdown; reflexivity|]. split; reflexivity.
Defined.

(** C9 as stated fails: with the table sorted by name and one snapshot on
    the redo stack, moving the first row up changes the playlist to the
    sorted order, pushes a snapshot and empties the redo stack. *)
Lemma move_at_boundary_counterexample :
  let b := new_entry "b" "u1" in
  let a := new_entry "a" "u2" in
  let w := set_selected_rows [0%nat]
             (refresh_table (mkWindow [b; a] [] [[b]] [] [] "Ready" (1%nat, false))) in
  entries w = [b; a] /\ table w = [a; b] /\ redo_stack w = [[b]]
  /\ exists w', move_up w = Some w'
       /\ entries w' = [a; b] /\ entries w' <> entries w
       /\ undo_stack w' = [[b; a]] /\ redo_stack w' = [].
Proof.
  simpl. repeat split. eexists. split; [reflexivity|].
  simpl. repeat split. discriminate.
Qed.

(** Away from the boundary the playlist entries are swapped; the table is
    then rebuilt and sorted again (here the header sorts by name, so the
    rows come back in the order they had). *)
Example move_up_swaps :
  let b := new_entry "b" "u1" in
  let a := new_entry "a" "u2" in
  let w := set_selected_rows [1%nat]
             (refresh_table (mkWindow [b; a] [] [] [] [] "Ready" (1%nat, false))) in
  table w = [a; b]
  /\ exists w', move_up w = Some w' /\ entries w' = [b; a] /\ table w' = [a; b]
       /\ selected_rows w' = [0%nat].
Proof. simpl. split; [done|]. eexists. split; [reflexivity|]. done. Qed.

(* ===================================================================== *)
(** ** Duplicate detection *)
(* ===================================================================== *)

Section Duplicates.

(** The rows the loop adds, without the accumulator. *)
Fixpoint flagged (i : nat) (es : list M3UEntry) (seen_urls : gset string) : list nat :=
  match es with
  | [] => []
  | entry :: rest =>
      if decide (url entry ∈ seen_urls)
      then i :: flagged (S i) rest seen_urls
      else flagged (S i) rest ({[url entry]} ∪ seen_urls)
  end.

Lemma find_duplicates_loop_flagged es : forall i seen dups,
  find_duplicates_loop i es seen dups = dups ++ flagged i es seen.
Proof.
  induction es as [|e es IH]; intros i seen dups; simpl.
  - by rewrite app_nil_r.
  - destruct (decide (url e ∈ seen)); rewrite IH; [|done].
    by rewrite <- app_assoc.
Qed.

(** Row [k] of [es] repeats a URL: one of [seen], or of an earlier row. *)
Definition repeats (es : list M3UEntry) (seen : gset string) (k : nat) : Prop :=
  exists e, es !! k = Some e
    /\ (url e ∈ seen
        \/ exists j e', (j < k)%nat /\ es !! j = Some e' /\ url e' = url e).

Lemma repeats_cons_0 e es seen :
  repeats (e :: es) seen 0 <-> url e ∈ seen.
Proof.
  split.
  - intros (e0 & He0 & [H | (j & _ & Hj & _)]); [|lia].
    simpl in He0. by inversion He0; subst.
  - intros H. exists e. split; [done|]. by left.
Qed.

Lemma repeats_cons_S e es seen k :
  repeats (e :: es) seen (S k) <-> repeats es ({[url e]} ∪ seen) k.
Proof.
  split.
  - intros (e0 & He0 & H). exists e0. split; [done|].
    destruct H as [H | (j & e' & Hj & He' & Hu)];
      [left; apply elem_of_union; by right|].
    destruct j as [|j]; simpl in He'.
    + inversion He'; subst. left. apply elem_of_union. left.
      by apply elem_of_singleton.
    + right. exists j, e'. split; [lia|]. done.
  - intros (e0 & He0 & H). exists e0. split; [done|].
    destruct H as [H | (j & e' & Hj & He' & Hu)].
    + apply elem_of_union in H as [H | H]; [|by left].
      apply elem_of_singleton in H. right. exists 0%nat, e.
      split; [lia|]. done.
    + right. exists (S j), e'. split; [lia|]. done.
Qed.

Lemma elem_of_flagged es : forall i seen n,
  n ∈ flagged i es seen <-> exists k, n = (i + k)%nat /\ repeats es seen k.
Proof.
  induction es as [|e es IH]; intros i seen n; simpl.
  - split; [by intros ?%elem_of_nil|].
    intros (k & _ & e & He & _). by rewrite lookup_nil in He.
  - destruct (decide (url e ∈ seen)) as [Hin|Hin].
    + rewrite elem_of_cons, IH. split.
      * intros [-> | (k & -> & Hk)].
        -- exists 0%nat. split; [lia|]. by apply repeats_cons_0.
        -- exists (S k). split; [lia|]. apply repeats_cons_S.
           destruct Hk as (e0 & ? & H). exists e0. split; [done|].
           destruct H as [H | H]; [left; apply elem_of_union; by right | by right].
      * intros ([|k] & -> & Hk); [left; lia|].
        right. exists k. split; [lia|]. apply repeats_cons_S in Hk.
        destruct Hk as (e0 & ? & H). exists e0. split; [done|].
        destruct H as [H | H]; [left | by right].
        apply elem_of_union in H as [H | H]; [|done].
        apply elem_of_singleton in H. by rewrite H.
    + rewrite IH. split.
      * intros (k & -> & Hk). exists (S k). split; [lia|].
        by apply repeats_cons_S.
      * intros ([|k] & -> & Hk).
        -- by apply repeats_cons_0 in Hk.
        -- exists k. split; [lia|]. by apply repeats_cons_S.
Qed.

Lemma flagged_sorted es : forall i seen,
  Forall (fun n => (i <= n)%nat) (flagged i es seen)
  /\ StronglySorted lt (flagged i es seen).
Proof.
  induction es as [|e es IH]; intros i seen; simpl.
  - split; constructor.
  - destruct (decide (url e ∈ seen)).
    + destruct (IH (S i) seen) as [Hge Hs]. split.
      * constructor; [lia|]. eapply Forall_impl; [exact Hge|]. simpl. lia.
      * constructor; [done|]. eapply Forall_impl; [exact Hge|]. simpl. lia.
    + destruct (IH (S i) ({[url e]} ∪ seen)) as [Hge Hs]. split; [|done].
      eapply Forall_impl; [exact Hge|]. simpl. lia.
Qed.

End Duplicates.

(** Row [i] has the URL of an earlier row (compared as strings, so
    case-sensitively). *)
Definition url_seen_earlier (es : list M3UEntry) (i : nat) : Prop :=
  exists e, es !! i = Some e
    /\ exists j e', (j < i)%nat /\ es !! j = Some e' /\ url e' = url e.

(** C4. [find_duplicates] collects exactly the rows whose URL is the URL of
    an earlier row, in increasing order (so a first occurrence is never
    among them); for the URLs a, b, a, c, a it collects rows 2 and 4; and
    URLs differing only in case are different. *)
Theorem find_duplicates_spec (w : Window) :
  (forall i, i ∈ find_duplicates w <-> url_seen_earlier (entries w) i)
  /\ StronglySorted lt (find_duplicates w)
  /\ (forall a b c : string, a <> b -> a <> c -> b <> c ->
        url <$> entries w = [a; b; a; c; a] ->
        find_duplicates w = [2; 4]%nat)
  /\ find_duplicates (set_entries [new_entry "x" "http://A"; new_entry "y" "http://a"] w) = [].
Proof.
  unfold find_duplicates. split; [|split; [|split]].
  - intros i. rewrite find_duplicates_loop_flagged. simpl.
    rewrite elem_of_flagged. unfold url_seen_earlier, repeats. split.
    + intros (k & -> & e & He & [H | H]); [set_solver|]. simpl. eauto.
    + intros (e & He & H). exists i. split; [done|]. eauto.
  - rewrite find_duplicates_loop_flagged. simpl. apply flagged_sorted.
  - intros a b c Hab Hac Hbc Hurls.
    destruct (entries w) as [|e1 [|e2 [|e3 [|e4 [|e5 [|e6 es]]]]]]; try done.
    simpl in Hurls. injection Hurls as <- <- H3 <- H5. simpl.
    rewrite H3, H5.
    repeat (case_decide; try (exfalso; set_solver)). reflexivity.
  - reflexivity.
Qed.

Lemma find_duplicates_spec_witness :
  find_duplicates
    (set_entries [new_entry "1" "a"; new_entry "2" "b"; new_entry "3" "a";
                  new_entry "4" "c"; new_entry "5" "a"] init_window)
  = [2; 4]%nat.
Proof.
  apply (find_duplicates_spec
           (set_entries [new_entry "1" "a"; new_entry "2" "b"; new_entry "3" "a";
                         new_entry "4" "c"; new_entry "5" "a"] init_window))
    with (a := "a") (b := "b") (c := "c").
  - discriminate.
  - discriminate.
  - discriminate.
  - reflexivity.
Defined.

(* ===================================================================== *)
(** ** The stream validator *)
(* ===================================================================== *)

Section Validator.

Variable E : env.

Lemma exec_bind {A B} (m : prog A) (f : A -> prog B) : forall t,
  exec (bind m f) E t =
  let '(a, tr1) := exec m E t in
  let '(b, tr2) := exec (f a) E (t + length tr1) in
  (b, tr1 ++ tr2).
Proof.
  induction m as [a | X e k IH]; intros t; simpl.
  - rewrite Nat.add_0_r. by destruct (exec (f a) E t).
  - destruct (answer E t e) as [x o]. rewrite IH.
    destruct (exec (k x) E (S t)) as [a tr1]. simpl.
    replace (t + S (length tr1))%nat with (S (t + length tr1)) by lia.
    by destruct (exec (f a) E (S (t + length tr1))).
Qed.

(** The header [check_url] sends. *)
Definition header_of (user_agent : string) : string :=
  if truthy user_agent then user_agent else default_user_agent.

(** What [check_url] returns, given the answers to the HEAD request and to
    the GET request that may follow it. *)
Definition verdict (head get : response) : bool * string :=
  match head with
  | Status s =>
      if is_success s then (true, "OK (" +:+ pretty s +:+ ")")
      else (false, "Status: " +:+ pretty s)
  | HTTPError code =>
      match get with
      | Status s =>
          if (code =? 405)%Z && is_success s
          then (true, "OK (" +:+ pretty s +:+ ")")
          else (false, "HTTP " +:+ pretty code)
      | _ => (false, "HTTP " +:+ pretty code)
      end
  | OtherError msg => (false, "Error: " +:+ msg)
  end.

(** The requests [check_url] makes: HEAD, and GET after a 405 only. *)
Lemma exec_check_url target user_agent t :
  let ua := header_of user_agent in
  let head := net E t HEAD target ua in
  let get := net E (S t) GET target ua in
  exec (check_url target user_agent) E t =
  (verdict head get,
   ObsUrlOpen HEAD target ua head ::
     match head with
     | HTTPError code =>
         if (code =? 405)%Z then [ObsUrlOpen GET target ua get] else []
     | _ => []
     end).
Proof.
  unfold check_url, header_of. simpl.
  destruct (net E t HEAD target _) as [s | code | msg]; simpl.
  - by destruct (is_success s).
  - destruct (code =? 405)%Z; simpl.
    + destruct (net E (S t) GET target _) as [s | code' | msg]; simpl; try done.
      by destruct (is_success s).
    + by destruct (net E (S t) GET target _).
  - done.
Qed.

Definition is_request (o : obs) : bool :=
  match o with ObsUrlOpen _ _ _ _ => true | _ => false end.

Lemma check_url_trace_requests target user_agent t :
  forallb is_request (snd (exec (check_url target user_agent) E t)) = true.
Proof.
  rewrite exec_check_url. simpl.
  destruct (net E t HEAD target _) as [s | code | msg]; simpl; try done.
  by destruct (code =? 405)%Z.
Qed.

(** The results a trace emits, in order. *)
Definition emitted (tr : list obs) : list (nat * bool * string) :=
  omap (fun o => match o with
                 | ObsEmit (result row v msg) => Some (row, v, msg)
                 | _ => None
                 end) tr.

Definition is_finished (o : obs) : bool :=
  match o with ObsEmit finished => true | _ => false end.

(** How often [finished] is emitted. *)
Definition completions (tr : list obs) : nat := length (filter is_finished tr).

(** What happens after the first time the flag is read as cleared. *)
Fixpoint after_cancel (tr : list obs) : option (list obs) :=
  match tr with
  | [] => None
  | ObsIsRunning false :: tr' => Some tr'
  | _ :: tr' => after_cancel tr'
  end.

Lemma emitted_app tr1 tr2 : emitted (tr1 ++ tr2) = emitted tr1 ++ emitted tr2.
Proof. unfold emitted. apply omap_app. Qed.

Lemma completions_app tr1 tr2 :
  completions (tr1 ++ tr2) = (completions tr1 + completions tr2)%nat.
Proof. unfold completions. by rewrite filter_app, length_app. Qed.

Lemma emitted_requests tr : forallb is_request tr = true -> emitted tr = [].
Proof.
  induction tr as [|o tr IH]; simpl; [done|].
  intros [Ho Htr]%andb_prop. destruct o; try done. by apply IH.
Qed.

Lemma completions_requests tr : forallb is_request tr = true -> completions tr = 0%nat.
Proof.
  induction tr as [|o tr IH]; simpl; [done|].
  intros [Ho Htr]%andb_prop. destruct o; try done. by apply IH.
Qed.

Lemma after_cancel_requests tr tr' :
  forallb is_request tr = true -> after_cancel (tr ++ tr') = after_cancel tr'.
Proof.
  induction tr as [|o tr IH]; simpl; [done|].
  intros [Ho Htr]%andb_prop. destruct o; try done. by apply IH.
Qed.

Lemma exec_trigger {X} (e : event X) t :
  exec (trigger e) E t = (fst (answer E t e), [snd (answer E t e)]).
Proof. unfold trigger. simpl. by destruct (answer E t e). Qed.

Lemma run_loop_cons total i row target ua rest :
  run_loop total i ((row, target, ua) :: rest) =
  (running <~ trigger IsRunning ;;
   if negb running then Ret tt
   else
     res <~ check_url target ua ;;
     trigger (Emit (result row (fst res) (snd res))) ;;;
     trigger (Emit (progress (i + 1) total)) ;;;
     run_loop total (S i) rest).
Proof. reflexivity. Qed.

(** One iteration of the loop of [run]. *)
Lemma exec_run_loop_cons total i row target ua rest t :
  snd (exec (run_loop total i ((row, target, ua) :: rest)) E t) =
  ObsIsRunning (flag E t) ::
    if flag E t then
      let '(res, trc) := exec (check_url target ua) E (S t) in
      trc ++ ObsEmit (result row (fst res) (snd res))
          :: ObsEmit (progress (i + 1) total)
          :: snd (exec (run_loop total (S i) rest) E (S t + length trc + 2))
    else [].
Proof.
  rewrite run_loop_cons, exec_bind, exec_trigger. cbn [answer fst snd length].
  destruct (flag E t); cbn [negb]; [|done].
  rewrite exec_bind. replace (t + 1)%nat with (S t) by lia.
  destruct (exec (check_url target ua) E (S t)) as [res trc].
  rewrite exec_bind, exec_trigger. cbn [answer fst snd length].
  rewrite exec_bind, exec_trigger. cbn [answer fst snd length].
  replace (S t + length trc + 1 + 1)%nat with (S t + length trc + 2)%nat by lia.
  by destruct (exec (run_loop total (S i) rest) E (S t + length trc + 2)) as [[] tr'].
Qed.

(** The loop emits the results of a prefix of the tasks, in task order,
    each with the verdict of its own check; it never emits [finished];
    and nothing happens after it has read the flag as cleared. If the flag
    is never cleared, the prefix is the whole list. *)
Lemma run_loop_trace tasks : forall total i t,
  let tr := snd (exec (run_loop total i tasks) E t) in
  (exists k, (k <= length tasks)%nat
     /\ (fun r => fst (fst r)) <$> emitted tr = (fun tk => fst (fst tk)) <$> take k tasks
     /\ ((forall t', flag E t' = true) -> k = length tasks))
  /\ completions tr = 0%nat
  /\ (forall rest, after_cancel tr = Some rest -> rest = []).
Proof.
  induction tasks as [|[[row target] ua] tasks IH]; intros total i t tr.
  - subst tr. simpl. split; [|done]. exists 0%nat. done.
  - subst tr. rewrite exec_run_loop_cons.
    destruct (flag E t) eqn:Hflag.
    + pose proof (check_url_trace_requests target ua (S t)) as Hreq.
      destruct (exec (check_url target ua) E (S t)) as [res trc]. simpl in Hreq.
      destruct (IH total (S i) (S t + length trc + 2)%nat) as ((k & Hk & Hrows & Hall) & Hfin & Hcancel).
      split; [|split].
      * exists (S k). split; [simpl; lia|]. split.
        -- change (ObsIsRunning true :: ?l) with ([ObsIsRunning true] ++ l).
           rewrite !emitted_app, (emitted_requests trc Hreq). simpl.
           f_equal. exact Hrows.
        -- intros Hf. simpl. f_equal. by apply Hall.
      * change (ObsIsRunning true :: ?l) with ([ObsIsRunning true] ++ l).
        rewrite !completions_app, (completions_requests trc Hreq). simpl.
        exact Hfin.
      * intros rest'. simpl. rewrite (after_cancel_requests trc _ Hreq). simpl.
        apply Hcancel.
    + split; [|split].
      * exists 0%nat. split; [lia|]. split; [done|].
        intros Hf. rewrite Hf in Hflag. done.
      * done.
      * simpl. by intros rest' [= <-].
Qed.

End Validator.

Lemma is_success_true (s : Z) : (200 <= s < 400)%Z -> is_success s = true.
Proof.
  intros [H1 H2]. unfold is_success.
  apply andb_true_intro. split; [by apply Z.leb_le | by apply Z.ltb_lt].
Qed.

Lemma is_success_false (s : Z) : ~ (200 <= s < 400)%Z -> is_success s = false.
Proof.
  intros H. unfold is_success. apply andb_false_iff.
  destruct (Z.leb_spec 200 s); [right | by left].
  apply Z.ltb_ge. lia.
Qed.

Lemma after_cancel_app (tr1 tr2 : list obs) :
  after_cancel (tr1 ++ tr2) =
  match after_cancel tr1 with
  | Some rest => Some (rest ++ tr2)
  | None => after_cancel tr2
  end.
Proof.
  induction tr1 as [|o tr1 IH]; simpl; [done|].
  destruct o as [| [] |]; done.
Qed.

Lemma after_cancel_first (tr1 tr2 : list obs) :
  exists rest, after_cancel (tr1 ++ ObsIsRunning false :: tr2) = Some rest
    /\ (rest = tr2 \/ In (ObsIsRunning false) rest).
Proof.
  induction tr1 as [|o tr1 IH]; simpl.
  - exists tr2. by split; [|left].
  - destruct IH as (rest & Hr & Hor).
    destruct o as [| [] |]; eauto.
    exists (tr1 ++ ObsIsRunning false :: tr2). split; [done|]. right.
    apply in_app_iff. right. by left.
Qed.

(** The trace of the thread: the trace of [run], then [finished]. *)
Lemma trace_thread_main (tasks : list task) (E : env) :
  trace (thread_main tasks) E =
  snd (exec (run tasks) E 0) ++ [ObsEmit finished].
Proof.
  unfold trace, thread_main. rewrite exec_bind.
  destruct (exec (run tasks) E 0) as [[] tr]. by rewrite exec_trigger.
Qed.

(** Without a cancellation every task gets its result, whatever the network
    answers. *)
Lemma run_reports_every_task (tasks : list task) (E : env) :
  (forall t, flag E t = true) ->
  (fun r => fst (fst r)) <$> emitted (trace (thread_main tasks) E)
  = (fun tk => fst (fst tk)) <$> tasks.
Proof.
  intros Hflag. rewrite trace_thread_main, emitted_app. simpl. rewrite app_nil_r.
  destruct (run_loop_trace E tasks (length tasks) 0 0) as ((k & Hk & Hrows & Hall) & _).
  unfold run. rewrite Hrows, (Hall Hflag). by rewrite firstn_all.
Qed.

(** One probe of [check_url], read on what [urlopen] does: when it returns
    a response whose status is in [200,400) the result is (valid, OK
    (status)), so status 200 gives (valid, OK (200)); when the HEAD raises
    HTTPError 405 exactly one GET follows, whose returned status in
    [200,400) gives valid, and whose failure of any kind gives (invalid,
    HTTP 405); every other outcome of the HEAD (another HTTP error, a
    returned status outside the range, a timeout or any other exception)
    gives invalid with a reason text and no second request. The check always
    returns, and a run that is not cancelled reports every task whatever
    the probes answer. *)
Theorem check_url_policy (target user_agent : string) (E : env) (t : nat) :
  let ua := header_of user_agent in
  let head := net E t HEAD target ua in
  let get := net E (S t) GET target ua in
  let res := fst (exec (check_url target user_agent) E t) in
  let tr := snd (exec (check_url target user_agent) E t) in
  (forall s, head = Status s -> (200 <= s < 400)%Z ->
     res = (true, "OK (" +:+ pretty s +:+ ")")
     /\ tr = [ObsUrlOpen HEAD target ua head])
  /\ (head = Status 200 -> res = (true, "OK (200)"))
  /\ (head = HTTPError 405 ->
      tr = [ObsUrlOpen HEAD target ua head; ObsUrlOpen GET target ua get]
      /\ (forall s, get = Status s -> (200 <= s < 400)%Z ->
            res = (true, "OK (" +:+ pretty s +:+ ")"))
      /\ ((forall s, get = Status s -> ~ (200 <= s < 400)%Z) ->
            res = (false, "HTTP 405")))
  /\ (forall code, head = HTTPError code -> code <> 405%Z ->
        res = (false, "HTTP " +:+ pretty code)
        /\ tr = [ObsUrlOpen HEAD target ua head])
  /\ (forall s, head = Status s -> ~ (200 <= s < 400)%Z ->
        res = (false, "Status: " +:+ pretty s)
        /\ tr = [ObsUrlOpen HEAD target ua head])
  /\ (forall msg, head = OtherError msg ->
        res = (false, "Error: " +:+ msg)
        /\ tr = [ObsUrlOpen HEAD target ua head])
  /\ (forall tasks, (forall t', flag E t' = true) ->
        (fun r => fst (fst r)) <$> emitted (trace (thread_main tasks) E)
        = (fun tk => fst (fst tk)) <$> tasks).
Proof.
  intros ua head get res tr. subst res tr.
  rewrite exec_check_url. fold ua. fold head. fold get. simpl.
  repeat split.
  - rewrite H. simpl. by rewrite (is_success_true s).
  - by rewrite H.
  - intros ->. reflexivity.
  - by rewrite H.
  - intros s Hs Hrange. rewrite H, Hs. simpl. by rewrite (is_success_true s).
  - intros Hfail. rewrite H. simpl. destruct get as [s | code | msg]; try done.
    by rewrite (is_success_false s (Hfail s eq_refl)).
  - rewrite H. simpl. destruct get as [s | code' | msg]; try done.
    apply Z.eqb_neq in H0. by rewrite H0.
  - rewrite H. apply Z.eqb_neq in H0. by rewrite H0.
  - rewrite H. simpl. by rewrite (is_success_false s).
  - by rewrite H.
  - by rewrite H.
  - by rewrite H.
  - intros tasks Hflag. by apply run_reports_every_task.
Qed.

Lemma check_url_policy_witness :
  let E := mkEnv (fun _ _ _ _ => Status 200) (fun _ => true) in
  fst (exec (check_url "http://a" "") E 0) = (true, "OK (200)").
Proof.
  intros E.
  destruct (check_url_policy "http://a" "" E 0) as (_ & H200 & _).
  apply H200. reflexivity.
Defined.

(** C5 (the code rejects the redirect range). The claim, and the range test
    of [check_url] itself, count a status in [200,400) as valid; but
    [urlopen] hands back a response for 2xx only, so when the server answers
    the HEAD with a status from 300 to 399 (a 304, say) the check takes the
    HTTPError branch and returns (invalid, HTTP status), after that one
    request. *)
Theorem check_url_rejects_3xx (target user_agent : string) (s : Z) (E : env) (t : nat) :
  (300 <= s < 400)%Z ->
  net E t HEAD target (header_of user_agent) = urlopen_result s ->
  exec (check_url target user_agent) E t =
  ((false, "HTTP " +:+ pretty s),
   [ObsUrlOpen HEAD target (header_of user_agent) (HTTPError s)]).
Proof.
  intros Hs Hnet. rewrite exec_check_url, Hnet. unfold urlopen_result.
  assert (((200 <=? s) && (s <? 300))%Z = false) as ->.
  { apply andb_false_iff. right. apply Z.ltb_ge. lia. }
  assert ((s =? 405)%Z = false) as Hne by (apply Z.eqb_neq; lia).
  simpl. rewrite Hne. by destruct (net E (S t) GET target (header_of user_agent)).
Qed.

Lemma check_url_rejects_3xx_witness :
  let E := mkEnv (fun _ _ _ _ => urlopen_result 304) (fun _ => true) in
  exec (check_url "http://a" "") E 0 =
  ((false, "HTTP 304"), [ObsUrlOpen HEAD "http://a" default_user_agent (HTTPError 304)]).
Proof.
  intros E. apply (check_url_rejects_3xx "http://a" "" 304 E 0).
  - lia.
  - reflexivity.
Defined.

(** A timeout of the HEAD request, and a 405 followed by a successful GET. *)
Example check_url_timeout :
  let E := mkEnv (fun _ _ _ _ => OtherError "timed out") (fun _ => true) in
  fst (exec (check_url "http://a" "") E 0) = (false, "Error: timed out").
Proof. reflexivity. Qed.

Example check_url_405_then_get :
  let E := mkEnv (fun _ m _ _ => match m with HEAD => HTTPError 405 | GET => Status 200 end)
                 (fun _ => true) in
  exec (check_url "http://a" "vlc") E 0 =
  ((true, "OK (200)"),
   [ObsUrlOpen HEAD "http://a" "vlc" (HTTPError 405);
    ObsUrlOpen GET "http://a" "vlc" (Status 200)]).
Proof. reflexivity. Qed.

(** C6. A validation run under any network and any schedule of the
    cancellation flag: once the flag has been read as cleared nothing follows
    but the [finished] signal (no request, no result); the rows of the
    emitted results are the rows of a prefix of the task list, in order;
    and [finished] is emitted exactly once, as the last event. *)
Theorem validation_run_cancellation (tasks : list task) (E : env) :
  let tr := trace (thread_main tasks) E in
  (forall tr1 tr2, tr = tr1 ++ ObsIsRunning false :: tr2 -> tr2 = [ObsEmit finished])
  /\ (exists k, (k <= length tasks)%nat
        /\ (fun r => fst (fst r)) <$> emitted tr = (fun tk => fst (fst tk)) <$> take k tasks)
  /\ completions tr = 1%nat
  /\ (exists tr', tr = tr' ++ [ObsEmit finished]).
Proof.
  intros tr. subst tr. rewrite trace_thread_main.
  destruct (run_loop_trace E tasks (length tasks) 0 0)
    as ((k & Hk & Hrows & _) & Hfin & Hcancel).
  fold (run tasks) in Hrows, Hfin, Hcancel.
  split; [|split; [|split]].
  - intros tr1 tr2 Heq.
    destruct (after_cancel_first tr1 tr2) as (rest & Hrest & Hor).
    rewrite <- Heq, after_cancel_app in Hrest.
    destruct (after_cancel (exec (run tasks) E 0).2) as [r|] eqn:Hr; [|done].
    rewrite (Hcancel r eq_refl) in Hrest. simpl in Hrest.
    injection Hrest as <-. destruct Hor as [<- | [? | []]]; done.
  - exists k. split; [done|]. rewrite emitted_app. simpl. by rewrite app_nil_r.
  - rewrite completions_app, Hfin. reflexivity.
  - by eexists.
Qed.

(** Cancelling while the second of three tasks is checked: the results of
    the first two tasks are emitted, the third is never started, and
    [finished] follows. *)
Example cancelled_run :
  let E := mkEnv (fun _ _ _ _ => Status 200) (fun t => (t <? 5)%nat) in
  trace (thread_main [(0%nat, "u0", ""); (1%nat, "u1", ""); (2%nat, "u2", "")]) E =
  [ObsIsRunning true; ObsUrlOpen HEAD "u0" default_user_agent (Status 200);
   ObsEmit (result 0 true "OK (200)"); ObsEmit (progress 1 3);
   ObsIsRunning true; ObsUrlOpen HEAD "u1" default_user_agent (Status 200);
   ObsEmit (result 1 true "OK (200)"); ObsEmit (progress 2 3);
   ObsIsRunning false; ObsEmit finished].
Proof. reflexivity. Qed.

(* ===================================================================== *)
(** ** Strings *)
(* ===================================================================== *)

Section Strings.

Lemma sapp_assoc (a b c : string) : (a +:+ b) +:+ c = a +:+ (b +:+ c).
Proof. induction a as [|x a IH]; simpl; [done|]. by rewrite IH. Qed.

Lemma sapp_nil_r (a : string) : a +:+ "" = a.
Proof. induction a as [|x a IH]; simpl; [done|]. by rewrite IH. Qed.

Lemma slength_app (a b : string) :
  String.length (a +:+ b) = (String.length a + String.length b)%nat.
Proof. induction a as [|x a IH]; simpl; [done|]. by rewrite IH. Qed.

Lemma all_app (p : ascii -> bool) (a b : string) :
  Py.all p (a +:+ b) = Py.all p a && Py.all p b.
Proof.
  induction a as [|x a IH]; simpl; [done|]. rewrite IH. by rewrite andb_assoc.
Qed.

Lemma truthy_true (s : string) : truthy s = true <-> s <> "".
Proof.
  unfold truthy. rewrite negb_true_iff. apply String.eqb_neq.
Qed.

Lemma truthy_false (s : string) : truthy s = false <-> s = "".
Proof.
  unfold truthy. rewrite negb_false_iff. apply String.eqb_eq.
Qed.

Lemma strip_prefix_app (p s : string) : Re.strip_prefix p (p +:+ s) = Some s.
Proof.
  induction p as [|x p IH]; simpl; [by destruct s|].
  by rewrite Ascii.eqb_refl.
Qed.

Lemma strip_prefix_mismatch (a y : ascii) (p s : string) :
  Ascii.eqb a y = false -> Re.strip_prefix (String a p) (String y s) = None.
Proof. intros H. cbn [Re.strip_prefix]. by rewrite H. Qed.

Lemma strip_prefix_Some (p s r : string) :
  Re.strip_prefix p s = Some r -> s = p +:+ r.
Proof.
  revert s. induction p as [|x p IH]; intros s H.
  - destruct s; simpl in H; by inversion H.
  - destruct s as [|y s]; simpl in H; [done|].
    destruct (Ascii.eqb_spec x y) as [->|]; [|done].
    simpl. f_equal. by apply IH.
Qed.

End Strings.

(* ===================================================================== *)
(** ** The matcher *)
(* ===================================================================== *)

Section Matcher.

Context {A : Type} (cls : ascii -> bool) (least : nat)
        (k : string -> string -> option A).

(** What a successful greedy repetition took: characters of the class, at
    least [least] of them, and the continuation accepted the rest. *)
Lemma greedy_sound (s : string) : forall acc r,
  Re.greedy cls least k acc s = Some r ->
  exists g rest, s = g +:+ rest /\ Py.all cls g = true
    /\ (least <= String.length (acc +:+ g))%nat
    /\ k (acc +:+ g) rest = Some r.
Proof.
  induction s as [|c s IH]; intros acc r H; simpl in H.
  - destruct (least <=? String.length acc)%nat eqn:Hl; [|done].
    exists "", "". rewrite !sapp_nil_r. apply Nat.leb_le in Hl. done.
  - assert (Hstop : (if (least <=? String.length acc)%nat
                     then k acc (String c s) else None) = Some r ->
            exists g rest, String c s = g +:+ rest /\ Py.all cls g = true
              /\ (least <= String.length (acc +:+ g))%nat
              /\ k (acc +:+ g) rest = Some r).
    { intros Hs. destruct (least <=? String.length acc)%nat eqn:Hl; [|done].
      exists "", (String c s). rewrite !sapp_nil_r. apply Nat.leb_le in Hl. done. }
    destruct (cls c) eqn:Hc; [|by apply Hstop].
    destruct (Re.greedy cls least k (acc +:+ chr c) s) as [r'|] eqn:Hrec;
      [|by apply Hstop].
    injection H as ->.
    destruct (IH _ _ Hrec) as (g & rest & -> & Hg & Hlen & Hk).
    exists (String c g), rest. simpl. rewrite Hc, Hg.
    unfold chr in *. rewrite sapp_assoc in Hlen, Hk. simpl in Hlen, Hk. done.
Qed.

(** When no longer repetition is accepted, the repetition stops at once. *)
Lemma greedy_stop (b : string) : forall acc,
  (forall b1 b2, b = b1 +:+ b2 -> b1 <> "" -> Py.all cls b1 = true ->
     (least <= String.length (acc +:+ b1))%nat -> k (acc +:+ b1) b2 = None) ->
  Re.greedy cls least k acc b =
  if (least <=? String.length acc)%nat then k acc b else None.
Proof.
  induction b as [|c b IH]; intros acc Hlonger; simpl; [done|].
  destruct (cls c) eqn:Hc; [|done].
  rewrite IH.
  - destruct (least <=? String.length (acc +:+ chr c))%nat eqn:Hl; [|done].
    rewrite (Hlonger (chr c) b); [done | done | done | simpl; by rewrite Hc |].
    by apply Nat.leb_le.
  - intros b1 b2 -> Hne Hb1 Hlen. rewrite sapp_assoc in *.
    apply (Hlonger (String c b1) b2); [done | done | simpl; by rewrite Hc | done].
Qed.

(** The repetition takes [g] when the continuation accepts there and
    refuses every longer repetition. *)
Lemma greedy_first_success (g b : string) : forall acc r,
  Py.all cls g = true ->
  (least <= String.length (acc +:+ g))%nat ->
  k (acc +:+ g) b = Some r ->
  (forall b1 b2, b = b1 +:+ b2 -> b1 <> "" -> Py.all cls b1 = true ->
     k (acc +:+ g +:+ b1) b2 = None) ->
  Re.greedy cls least k acc (g +:+ b) = Some r.
Proof.
  induction g as [|c g IH]; intros acc r Hg Hlen Hk Hlonger.
  - simpl. rewrite sapp_nil_r in Hlen, Hk. rewrite greedy_stop.
    + apply Nat.leb_le in Hlen. by rewrite Hlen.
    + intros b1 b2 Hb Hne Hb1 _. by apply Hlonger.
  - simpl in Hg. apply andb_prop in Hg as [Hc Hg]. simpl. rewrite Hc.
    rewrite (IH (acc +:+ chr c) r); [done | done | | |].
    + unfold chr. by rewrite sapp_assoc.
    + unfold chr. by rewrite sapp_assoc.
    + intros b1 b2 Hb Hne Hb1. unfold chr. rewrite sapp_assoc. simpl.
      by apply Hlonger.
Qed.

End Matcher.

(* ===================================================================== *)
(** ** The parser: it always returns, and what it keeps of each line *)
(* ===================================================================== *)

Section Parser.

Lemma last_item_is_Some {A} (l : list A) : l <> [] -> is_Some (Py.last_item l).
Proof.
  destruct l as [|x l] using rev_ind; [done|]. intros _.
  rewrite last_item_snoc. by eexists.
Qed.

Lemma split_not_nil (sep : ascii) (s : string) : Py.split sep s <> [].
Proof.
  destruct s as [|c s]; simpl; [done|].
  destruct (Ascii.eqb c sep); [done|]. by destruct (Py.split sep s).
Qed.

(** The first group of a matched metadata line: one or more of [-0-9]. *)
Lemma extinf_group1 (line : string) (m : list string) :
  Re.rmatch extinf_re line = Some m ->
  Py.all Re.minus_digit (Re.group m 1) = true /\ Re.group m 1 <> "".
Proof.
  unfold Re.rmatch, extinf_re. cbn [Re.exec].
  destruct (Re.strip_prefix "#EXTINF:" line) as [rest|]; [|done].
  intros H. apply greedy_sound in H as (g & r & _ & Hg & Hlen & Hk).
  simpl in Hlen, Hk.
  destruct (Re.greedy _ _ _ _ _) as [m'|]; [|done].
  simpl in Hk. injection Hk as <-. unfold Re.group. simpl.
  split; [done|]. intros ->. simpl in Hlen. lia.
Qed.

Lemma parse_extinf_total (line : string) : is_Some (parse_extinf line).
Proof.
  unfold parse_extinf. destruct (Re.rmatch extinf_re line); [by eexists|].
  destruct (last_item_is_Some (Py.split comma line) (split_not_nil _ _)) as [n Hn].
  rewrite Hn. by eexists.
Qed.

Definition differs (sep : ascii) (c : ascii) : bool := negb (Ascii.eqb c sep).

Lemma lower_char_equals (c : ascii) : Py.lower_char c = "="%char -> c = "="%char.
Proof.
  destruct c as [[] [] [] [] [] [] [] []]; vm_compute; intros H; congruence.
Qed.

Lemma startswith_lower_contains (sep : ascii) (p : string) : forall s,
  (forall c, Py.lower_char c = sep -> c = sep) ->
  Py.all (differs sep) p = false ->
  Py.startswith (Py.lower s) p = true ->
  Py.all (differs sep) s = false.
Proof.
  induction p as [|x p IH]; intros s Hsep Hp Hs; [done|].
  destruct s as [|y s]; [done|]. simpl in Hs, Hp |- *.
  destruct (Ascii.eqb_spec x (Py.lower_char y)) as [->|]; [|done].
  apply andb_false_iff in Hp as [Hp | Hp].
  - unfold differs in Hp |- *. apply negb_false_iff, Ascii.eqb_eq in Hp.
    rewrite (Hsep y Hp). by rewrite Ascii.eqb_refl.
  - rewrite (IH s Hsep Hp Hs). apply andb_false_r.
Qed.

Lemma split1_second (sep : ascii) (s : string) :
  Py.all (differs sep) s = false -> exists a b, Py.split1 sep s = [a; b].
Proof.
  induction s as [|c s IH]; [done|]. simpl. unfold differs at 1.
  destruct (Ascii.eqb c sep); simpl; [by eauto|].
  intros H. destruct (IH H) as (a & b & ->). eauto.
Qed.

Lemma split1_cut (sep : ascii) (pre rest : string) :
  Py.all (differs sep) pre = true ->
  Py.split1 sep (pre +:+ String sep rest) = [pre; rest].
Proof.
  induction pre as [|c pre IH]; simpl.
  - by rewrite Ascii.eqb_refl.
  - unfold differs at 1. intros [Hc Hpre]%andb_prop.
    apply negb_true_iff in Hc. rewrite Hc. by rewrite IH.
Qed.

(** What one line does to the state of the loop: it leaves the entries alone
    (and keeps, replaces or annotates the entry in progress), or it is a
    non-blank line not starting with # and appends one entry whose URL is
    the stripped line. *)
Lemma parse_line_cases (st : pstate) (l : string) :
  exists st', parse_line st l = Some st'
    /\ ((entries_of st' = entries_of st
         /\ (current_entry st' = current_entry st
             \/ (exists cur, parse_extinf (Py.strip l) = Some cur
                   /\ current_entry st' = Some cur)
             \/ (exists cur ua, current_entry st = Some cur
                   /\ current_entry st' = Some (set_user_agent ua cur))))
        \/ (Py.strip l <> "" /\ Py.startswith (Py.strip l) "#" = false
            /\ current_entry st' = None
            /\ exists e, entries_of st' = entries_of st ++ [e]
                 /\ ((exists cur, current_entry st = Some cur
                        /\ e = set_url (Py.strip l) cur)
                     \/ (current_entry st = None
                         /\ e = new_entry "Unknown" (Py.strip l))))).
Proof.
  unfold parse_line.
  destruct (truthy (Py.strip l)) eqn:Ht; simpl; [|by eauto 10].
  destruct (Py.startswith (Py.strip l) "#EXTM3U"); [by eauto 10|].
  destruct (Py.startswith (Py.strip l) "#EXTINF:").
  { destruct (parse_extinf_total (Py.strip l)) as [cur Hcur]. rewrite Hcur. simpl.
    eexists. split; [done|]. left. simpl. eauto 10. }
  destruct (Py.startswith (Py.strip l) "#EXTVLCOPT:").
  { destruct (current_entry st) as [cur|] eqn:Hcur; [|by eauto 10].
    destruct (Py.startswith (Py.lower _) _) eqn:Hopt; [|by eauto 10].
    apply (startswith_lower_contains "="%char) in Hopt;
      [|apply lower_char_equals|done].
    destruct (split1_second _ _ Hopt) as (a & b & ->). simpl.
    eexists. split; [done|]. left. simpl. eauto 10. }
  destruct (Py.startswith (Py.strip l) "#") eqn:Hhash; simpl; [by eauto 10|].
  apply truthy_true in Ht.
  destruct (current_entry st) as [cur|] eqn:Hcur.
  - eexists. split; [done|]. right. simpl. eauto 10.
  - eexists. split; [done|]. right. simpl. eauto 10.
Qed.

Lemma parse_line_total (st : pstate) (l : string) : is_Some (parse_line st l).
Proof. destruct (parse_line_cases st l) as (st' & -> & _). by eexists. Qed.

Lemma parse_loop_total (lines : list string) : forall st, is_Some (parse_loop st lines).
Proof.
  induction lines as [|l lines IH]; intros st; simpl; [by eexists|].
  destruct (parse_line_total st l) as [st' ->]. simpl. apply IH.
Qed.

(** [parse_lines] never raises. *)
Lemma parse_lines_total (lines : list string) : is_Some (parse_lines lines).
Proof.
  unfold parse_lines.
  destruct (parse_loop_total lines (mkPstate [] None)) as [st ->]. by eexists.
Qed.

Lemma parse_loop_app (l1 l2 : list string) : forall st,
  parse_loop st (l1 ++ l2) = st' ← parse_loop st l1; parse_loop st' l2.
Proof.
  induction l1 as [|l l1 IH]; intros st; simpl; [done|].
  destruct (parse_line st l) as [st'|]; simpl; [apply IH | done].
Qed.

(** A blank line or a line starting with # appends nothing. *)
Definition comment_or_blank (l : string) : Prop :=
  Py.strip l = "" \/ Py.startswith (Py.strip l) "#" = true.

Lemma startswith_first (s p : string) (a : ascii) :
  Py.startswith s (String a p) = true -> Py.startswith s (chr a) = true.
Proof.
  destruct s as [|c s]; cbn [Py.startswith chr]; [done|].
  destruct (Ascii.eqb a c); [by destruct s | done].
Qed.

Lemma parse_line_comment (st : pstate) (l : string) :
  comment_or_blank l ->
  exists st', parse_line st l = Some st' /\ entries_of st' = entries_of st.
Proof.
  intros Hl. destruct (parse_line_cases st l) as (st' & Hst' & [[He _] | (Hne & Hh & _)]).
  - eauto.
  - destruct Hl as [Hl | Hl]; [done | congruence].
Qed.

Lemma parse_loop_comments (ls : list string) : forall st,
  Forall comment_or_blank ls ->
  exists st', parse_loop st ls = Some st' /\ entries_of st' = entries_of st.
Proof.
  induction ls as [|l ls IH]; intros st Hls; simpl; [by eauto|].
  apply Forall_cons in Hls as [Hl Hls].
  destruct (parse_line_comment st l Hl) as (st1 & -> & He1). simpl.
  destruct (IH st1 Hls) as (st' & -> & He). exists st'. split; [done|]. congruence.
Qed.

(** An invariant of the loop: [P] holds of the entries appended so far and
    [Q] of the entry in progress; [seen] holds of the lines of the input. *)
Lemma parse_loop_invariant (P Q : M3UEntry -> Prop) (seen : string -> Prop) :
  (forall l cur, seen l -> parse_extinf (Py.strip l) = Some cur -> Q cur) ->
  (forall cur ua, Q cur -> Q (set_user_agent ua cur)) ->
  (forall l cur, Q cur -> Py.strip l <> "" -> Py.startswith (Py.strip l) "#" = false ->
     seen l -> P (set_url (Py.strip l) cur)) ->
  (forall l, Py.strip l <> "" -> Py.startswith (Py.strip l) "#" = false ->
     seen l -> P (new_entry "Unknown" (Py.strip l))) ->
  forall lines st st',
    (forall l, l ∈ lines -> seen l) ->
    Forall P (entries_of st) ->
    (forall cur, current_entry st = Some cur -> Q cur) ->
    parse_loop st lines = Some st' ->
    Forall P (entries_of st').
Proof.
  intros Hextinf Hua Hurl Hbare.
  induction lines as [|l ls IH]; intros st st' Hseen HP HQ Hloop; simpl in Hloop.
  - by injection Hloop as <-.
  - destruct (parse_line_cases st l) as (st1 & Hst1 & Hcase).
    rewrite Hst1 in Hloop. simpl in Hloop.
    assert (seen l) as Hl by (apply Hseen; by left).
    apply (IH st1 st'); [| | |done].
    + intros l' Hl'. apply Hseen. by right.
    + destruct Hcase as [[He _] | (Hne & Hh & _ & e & He & Hor)].
      * by rewrite He.
      * rewrite He. apply Forall_app. split; [done|]. constructor; [|done].
        destruct Hor as [(cur & Hcur & ->) | [_ ->]]; eauto.
    + intros cur Hcur.
      destruct Hcase as [[_ Hc] | (_ & _ & Hnone & _)]; [|congruence].
      destruct Hc as [Hc | [(cur' & Hp & Hc) | (cur' & ua & Hc0 & Hc)]].
      * apply HQ. congruence.
      * rewrite Hc in Hcur. injection Hcur as <-. eauto.
      * rewrite Hc in Hcur. injection Hcur as <-. eauto.
Qed.

End Parser.

(* ===================================================================== *)
(** ** Entries the parser emits *)
(* ===================================================================== *)

(** The value of one decimal digit. *)
Definition digit_val (c : ascii) : option Z :=
  let n := N_of_ascii c in
  if ((48 <=? n) && (n <=? 57))%N then Some (Z.of_N n - 48)%Z else None.

(** The digits of a Python integer literal as [int(s)] reads them: decimal
    digits with single underscores between two digits. [prev] tells that
    the previous character was a digit. *)
Fixpoint digits_val (acc : Z) (prev : bool) (s : string) : option Z :=
  match s with
  | "" => if prev then Some acc else None
  | String c s' =>
      match digit_val c with
      | Some d => digits_val (10 * acc + d)%Z true s'
      | None =>
          if Ascii.eqb c "_"%char && prev then digits_val acc false s' else None
      end
  end.

(** [int(s)]: surrounding whitespace, an optional sign, the digits; [None]
    is Python's ValueError. *)
Definition py_int (s : string) : option Z :=
  match Py.strip s with
  | String "-"%char r => Z.opp <$> digits_val 0 false r
  | String "+"%char r => digits_val 0 false r
  | r => digits_val 0 false r
  end.

(** The duration the specification asks for: the text -1, or a text that
    parses as an integer that is not negative. *)
Definition spec_duration (d : string) : Prop :=
  d = "-1" \/ exists n, py_int d = Some n /\ (0 <= n)%Z.

(** The duration the parser produces: one or more of the characters - and
    0..9. *)
Definition duration_ok (e : M3UEntry) : Prop :=
  Py.all Re.minus_digit (duration e) = true /\ duration e <> "".

(** The duration the parser stores for a line of the input: the default
    -1, or the first group of the metadata pattern matched on a line. *)
Definition duration_from (lines : list string) (d : string) : Prop :=
  d = "-1"
  \/ exists l m, l ∈ lines /\ Re.rmatch extinf_re (Py.strip l) = Some m
       /\ d = Re.group m 1.

(** The assignments of [update_current_entry_data] to the entry of the
    selected row, from the texts of the five fields of the form. *)
Definition update_entry_fields (input_name input_group input_logo input_url
    input_user_agent : string) (entry : M3UEntry) : M3UEntry :=
  set_user_agent input_user_agent
    (set_url input_url
       (set_logo input_logo (set_group input_group (set_name input_name entry)))).

(** [table.removeRow(row)]: the row leaves the table and the selection, and
    the selected rows below it move up; a row the table does not have
    removes nothing. *)
Definition remove_row (row : nat) (w : Window) : Window :=
  if (row <? length (table w))%nat then
    set_selected_rows
      (omap (fun r => if (r =? row)%nat then None
                      else Some (if (row <? r)%nat then (r - 1)%nat else r))
            (selected_rows w))
      (set_table (delete row (table w)) w)
  else w.

(** [delete_entry]; [confirm] is the answer to the confirmation dialog. *)
Definition delete_entry (confirm : bool) (w : Window) : Window :=
  match selected_rows w with
  | [] => w
  | row :: _ =>
      if confirm then
        let w := save_undo_state w in
        let w := remove_row row w in
        sync_entries_from_table w
      else w
  end.

(** [load_m3u]; [file_name] is what the file dialog returns (empty when it
    is cancelled) and [content] the text of the file, [None] when reading
    it raises. The history is cleared before the file is read. *)
Definition load_m3u (file_name : string) (content : option string) (w : Window) : Window :=
  if truthy file_name then
    let w := set_redo_stack [] (set_undo_stack [] w) in
    match content ≫= parse_file with
    | Some parsed =>
        let w := refresh_table (set_entries parsed w) in
        set_status ("Loaded " +:+ pretty (length (entries w)) +:+ " channels from "
                    +:+ file_name) w
    | None => w
    end
  else w.

(** Every entry the window holds, shows or remembers has such a duration. *)
Definition window_ok (w : Window) : Prop :=
  Forall duration_ok (entries w) /\ Forall duration_ok (table w)
  /\ Forall (Forall duration_ok) (undo_stack w)
  /\ Forall (Forall duration_ok) (redo_stack w).

Section Durations.

Lemma parse_extinf_duration (line : string) (cur : M3UEntry) :
  parse_extinf line = Some cur ->
  duration_ok cur
  /\ (duration cur = "-1"
      \/ exists m, Re.rmatch extinf_re line = Some m /\ duration cur = Re.group m 1).
Proof.
  unfold parse_extinf.
  destruct (Re.rmatch extinf_re line) as [m|] eqn:Hm.
  - destruct (extinf_group1 line m Hm) as [Hall Hne].
    intros [= <-].
    destruct (Re.search group_re _), (Re.search logo_re _);
      (split; [by split | right; by exists m]).
  - destruct (Py.last_item _); [|done]. intros [= <-].
    split; [by split | by left].
Qed.

Lemma insert_row_Forall (P : M3UEntry -> Prop) before x rows :
  P x -> Forall P rows -> Forall P (insert_row before x rows).
Proof.
  intros Hx. induction rows as [|y rows IH]; intros Hrows; simpl.
  - by constructor.
  - apply Forall_cons in Hrows as [Hy Hrows].
    destruct (before y x); constructor; auto.
Qed.

Lemma sort_rows_Forall (P : M3UEntry -> Prop) hs rows :
  Forall P rows -> Forall P (sort_rows hs rows).
Proof.
  destruct hs as [col descending]. unfold sort_rows.
  destruct (col <? 3)%nat; [|done].
  induction rows as [|x rows IH]; intros H; simpl; [done|].
  apply Forall_cons in H as [Hx H]. apply insert_row_Forall; auto.
Qed.

Lemma window_ok_refresh (w : Window) : window_ok w -> window_ok (refresh_table w).
Proof.
  intros (He & Ht & Hu & Hr). unfold window_ok. simpl.
  split; [done|]. split; [by apply sort_rows_Forall | done].
Qed.

Lemma window_ok_sync (w : Window) : window_ok w -> window_ok (sync_entries_from_table w).
Proof. intros (He & Ht & Hu & Hr). by unfold window_ok. Qed.

Lemma window_ok_status s (w : Window) : window_ok w -> window_ok (set_status s w).
Proof. done. Qed.

Lemma window_ok_save (w : Window) : window_ok w -> window_ok (save_undo_state w).
Proof.
  intros (He & Ht & Hu & Hr). unfold save_undo_state.
  assert (Forall (Forall duration_ok) (pop_front (undo_stack w))) as Hpop.
  { destruct (undo_stack w); [done|]. by apply Forall_cons in Hu as [_ ?]. }
  destruct (50 <? length (undo_stack w))%nat; unfold window_ok; simpl;
    (split; [done|]; split; [done|]; split; [|done]);
    apply Forall_app; split; try done; by constructor.
Qed.

Lemma window_ok_undo (w : Window) : window_ok w -> window_ok (undo w).
Proof.
  intros (He & Ht & Hu & Hr). unfold undo.
  destruct (undo_stack w) as [|top rest] eqn:E using rev_ind.
  - rewrite pop_nil. unfold window_ok. simpl. by rewrite E.
  - rewrite pop_snoc. apply Forall_app in Hu as [Hrest Htop].
    apply Forall_inv in Htop. apply window_ok_status, window_ok_refresh.
    unfold window_ok. simpl.
    split; [done|]. split; [done|]. split; [done|].
    apply Forall_app. split; [done|]. by constructor.
Qed.

Lemma window_ok_redo (w : Window) : window_ok w -> window_ok (redo w).
Proof.
  intros (He & Ht & Hu & Hr). unfold redo.
  destruct (redo_stack w) as [|top rest] eqn:E using rev_ind.
  - rewrite pop_nil. unfold window_ok. simpl. by rewrite E.
  - rewrite pop_snoc. apply Forall_app in Hr as [Hrest Htop].
    apply Forall_inv in Htop. apply window_ok_status, window_ok_refresh.
    unfold window_ok. simpl.
    split; [done|]. split; [done|]. split; [|done].
    apply Forall_app. split; [done|]. by constructor.
Qed.

Lemma window_ok_add (w : Window) : window_ok w -> window_ok (add_entry w).
Proof.
  intros H. apply window_ok_save in H as (He & Ht & Hu & Hr).
  unfold add_entry.
  set (w1 := set_entries _ _).
  assert (window_ok w1) as H1.
  { unfold window_ok, w1. simpl. split; [|done].
    apply Forall_app. split; [done|]. constructor; [|done]. by split. }
  apply window_ok_refresh in H1. by destruct H1 as (? & ? & ? & ?).
Qed.

Lemma swap_Forall {A} (P : A -> Prop) (i j : nat) (l l' : list A) :
  Forall P l -> swap i j l = Some l' -> Forall P l'.
Proof.
  intros Hl. unfold swap.
  destruct (l !! j) as [a|] eqn:Ha; [|done].
  destruct (l !! i) as [b|] eqn:Hb; [|done]. simpl. intros [= <-].
  apply Forall_insert; [apply Forall_insert; [done|]|].
  - eapply Forall_lookup_1; eauto.
  - eapply Forall_lookup_1; eauto.
Qed.

Lemma window_ok_move_up (w w' : Window) :
  window_ok w -> move_up w = Some w' -> window_ok w'.
Proof.
  intros H. apply window_ok_save, window_ok_sync in H. unfold move_up.
  set (w1 := sync_entries_from_table (save_undo_state w)) in *.
  destruct (selected_rows w1) as [|row sel]; [by intros [= <-]|].
  destruct (0 <? row)%nat; [|by intros [= <-]].
  destruct (swap row (row - 1) (entries w1)) as [es'|] eqn:Hs; [|done].
  simpl. intros [= <-]. destruct H as (He & Ht & Hu & Hr).
  pose proof (swap_Forall _ _ _ _ _ He Hs).
  assert (window_ok (refresh_table (set_entries es' w1))) as (? & ? & ? & ?)
    by (by apply window_ok_refresh).
  done.
Qed.

Lemma window_ok_move_down (w w' : Window) :
  window_ok w -> move_down w = Some w' -> window_ok w'.
Proof.
  intros H. apply window_ok_save, window_ok_sync in H. unfold move_down.
  set (w1 := sync_entries_from_table (save_undo_state w)) in *.
  destruct (selected_rows w1) as [|row sel]; [by intros [= <-]|].
  destruct (Z.of_nat row <? _)%Z; [|by intros [= <-]].
  destruct (swap row (row + 1) (entries w1)) as [es'|] eqn:Hs; [|done].
  simpl. intros [= <-]. destruct H as (He & Ht & Hu & Hr).
  pose proof (swap_Forall _ _ _ _ _ He Hs).
  assert (window_ok (refresh_table (set_entries es' w1))) as (? & ? & ? & ?)
    by (by apply window_ok_refresh).
  done.
Qed.

Lemma window_ok_remove_row (row : nat) (w : Window) :
  window_ok w -> window_ok (remove_row row w).
Proof.
  intros (He & Ht & Hu & Hr). unfold remove_row.
  destruct (row <? length (table w))%nat; [|done].
  unfold window_ok. simpl. split; [done|]. split; [|done].
  by apply Forall_delete.
Qed.

Lemma window_ok_delete (confirm : bool) (w : Window) :
  window_ok w -> window_ok (delete_entry confirm w).
Proof.
  intros H. unfold delete_entry.
  destruct (selected_rows w); [done|]. destruct confirm; [|done].
  by apply window_ok_sync, window_ok_remove_row, window_ok_save.
Qed.

Lemma parse_lines_durations (lines : list string) :
  exists es, parse_lines lines = Some es
    /\ Forall (fun e => duration_ok e /\ duration_from lines (duration e)) es.
Proof.
  unfold parse_lines.
  destruct (parse_loop_total lines (mkPstate [] None)) as [st Hst].
  rewrite Hst. simpl. eexists. split; [done|].
  set (P := fun e => duration_ok e /\ duration_from lines (duration e)).
  apply (parse_loop_invariant P P (fun l => l ∈ lines))
    with (lines := lines) (st := mkPstate [] None); try done.
  - intros l cur Hl Hp.
    destruct (parse_extinf_duration _ _ Hp) as [Hok [Hd | (m & Hm & Hd)]].
    + split; [done | by left].
    + split; [done|]. right. by exists l, m.
  - intros l Hne Hh Hl. split; [by split | by left].
Qed.

Lemma window_ok_load (file_name : string) (content : option string) (w : Window) :
  window_ok w -> window_ok (load_m3u file_name content w).
Proof.
  intros (He & Ht & Hu & Hr). unfold load_m3u.
  destruct (truthy file_name); [|done].
  destruct content as [text|]; simpl; [|done].
  destruct (parse_lines_durations (readlines text)) as (es & Hes & Hok).
  unfold parse_file. rewrite Hes.
  apply window_ok_status, window_ok_refresh. unfold window_ok. simpl.
  split; [|done]. eapply Forall_impl; [exact Hok|]. by intros e [? _].
Qed.

End Durations.

(** C7, as the code has it. The parser always returns, and every entry it
    emits has a duration made of one or more of the characters - and 0..9:
    the default -1, or the first group of the metadata pattern on a line of
    the input. Nothing changes a duration afterwards: the form and the bulk
    edit assign the other fields of an entry only, and adding (with the
    default -1), deleting, moving, reading the playlist back from the
    table, rebuilding the table, loading a file, taking a snapshot, undo and
    redo keep such durations in the playlist, in the table and on both
    stacks. *)
Theorem parsed_duration_shape (lines : list string) (w : Window) :
  (exists es, parse_lines lines = Some es
     /\ Forall (fun e => duration_ok e /\ duration_from lines (duration e)) es)
  /\ (forall i_name i_group i_logo i_url i_agent new_group e,
        duration (update_entry_fields i_name i_group i_logo i_url i_agent e) = duration e
        /\ duration (set_group new_group e) = duration e)
  /\ (window_ok w ->
      window_ok (add_entry w)
      /\ (forall confirm, window_ok (delete_entry confirm w))
      /\ (forall w', move_up w = Some w' -> window_ok w')
      /\ (forall w', move_down w = Some w' -> window_ok w')
      /\ window_ok (sync_entries_from_table w) /\ window_ok (refresh_table w)
      /\ (forall file_name content, window_ok (load_m3u file_name content w))
      /\ window_ok (save_undo_state w) /\ window_ok (undo w) /\ window_ok (redo w)).
Proof.
  split; [apply parse_lines_durations|]. split; [done|].
  intros Hw.
  split; [by apply window_ok_add|].
  split; [intros; by apply window_ok_delete|].
  split; [intros w' Hm; by eapply window_ok_move_up|].
  split; [intros w' Hm; by eapply window_ok_move_down|].
  split; [by apply window_ok_sync|]. split; [by apply window_ok_refresh|].
  split; [intros; by apply window_ok_load|].
  split; [by apply window_ok_save|].
  split; [by apply window_ok_undo | by apply window_ok_redo].
Qed.

Lemma parsed_duration_shape_witness :
  let lines := ["#EXTINF:120,Film"; "http://host/film"; "http://host/bare"] in
  let film := set_duration "120" (new_entry "Film" "http://host/film") in
  let bare := new_entry "Unknown" "http://host/bare" in
  let w := refresh_table (set_entries [film; bare] init_window) in
  parse_lines lines = Some [film; bare]
  /\ duration_ok film /\ duration_from lines (duration film)
  /\ window_ok (add_entry w) /\ window_ok (delete_entry true w) /\ window_ok (undo w).
Proof.
  intros lines film bare w.
  destruct (parsed_duration_shape lines w) as ((es & Hes & Hok) & _ & Hops).
  assert (parse_lines lines = Some [film; bare]) as Hp by reflexivity.
  rewrite Hp in Hes. injection Hes as <-.
  apply Forall_cons in Hok as [[Hfilm Hfrom] _].
  destruct Hops as (Hadd & Hdel & _ & _ & _ & _ & _ & _ & Hundo & _).
  - repeat split; repeat constructor; discriminate.
  - split; [exact Hp|]. split; [exact Hfilm|]. split; [exact Hfrom|].
    split; [exact Hadd|]. split; [exact (Hdel true) | exact Hundo].
Defined.

(** C7 as stated fails: a metadata line whose duration is -5, and one whose
    duration is the two characters --, are parsed into entries whose
    duration is neither the text -1 nor the text of an integer that is not
    negative. *)
Lemma parsed_duration_counterexample :
  exists e1 e2,
    parse_lines ["#EXTINF:-5,x"; "http://a"; "#EXTINF:--,y"; "http://b"] = Some [e1; e2]
    /\ duration e1 = "-5" /\ duration e2 = "--"
    /\ ~ spec_duration (duration e1) /\ ~ spec_duration (duration e2).
Proof.
  eexists _, _. split; [reflexivity|]. simpl.
  split; [done|]. split; [done|].
  split; intros [H | (n & Hn & Hpos)]; try discriminate.
  - vm_compute in Hn. injection Hn as <-. lia.
Qed.

(* ===================================================================== *)
(** ** Metadata without a URL *)
(* ===================================================================== *)

(** C10. A metadata line that is followed, up to the end of the input, only
    by blank lines and lines starting with #, adds no entry: the result is
    the result of the lines before it. And every entry of any result has
    for URL the stripped text of a line of the input that is not blank and
    does not start with #. *)
Theorem trailing_metadata_discarded (pre trailer : list string) (m : string) :
  (Py.startswith (Py.strip m) "#EXTINF:" = true ->
   Forall comment_or_blank trailer ->
   exists es, parse_lines pre = Some es
     /\ parse_lines (pre ++ m :: trailer) = Some es)
  /\ (exists es, parse_lines pre = Some es
      /\ forall e, e ∈ es ->
           exists l, l ∈ pre /\ url e = Py.strip l
             /\ url e <> "" /\ Py.startswith (url e) "#" = false).
Proof.
  split.
  - intros Hm Htrailer. unfold parse_lines.
    destruct (parse_loop_total pre (mkPstate [] None)) as [st Hst].
    rewrite parse_loop_app, Hst. simpl. exists (entries_of st). split; [done|].
    assert (comment_or_blank m) as Hcm.
    { right. by apply startswith_first in Hm. }
    destruct (parse_loop_comments (m :: trailer) st) as (st' & Hst' & He).
    { by constructor. }
    change (parse_line st m ≫= (fun st' => parse_loop st' trailer))
      with (parse_loop st (m :: trailer)).
    rewrite Hst'. simpl. by rewrite He.
  - unfold parse_lines.
    destruct (parse_loop_total pre (mkPstate [] None)) as [st Hst].
    rewrite Hst. simpl. eexists. split; [done|].
    apply Forall_forall.
    apply (parse_loop_invariant
             (fun e => exists l, l ∈ pre /\ url e = Py.strip l
                         /\ url e <> "" /\ Py.startswith (url e) "#" = false)
             (fun _ => True) (fun l => l ∈ pre))
      with (lines := pre) (st := mkPstate [] None); try done.
    + intros l cur _ Hne Hh Hin. exists l. by destruct cur.
    + intros l Hne Hh Hin. by exists l.
Qed.

Lemma trailing_metadata_discarded_witness :
  parse_lines ["#EXTINF:-1,a"; "http://a"; "#EXTINF:-1,b"; "#EXTVLCOPT:http-user-agent=x"; ""]
  = parse_lines ["#EXTINF:-1,a"; "http://a"].
Proof.
  destruct (trailing_metadata_discarded ["#EXTINF:-1,a"; "http://a"]
              ["#EXTVLCOPT:http-user-agent=x"; ""] "#EXTINF:-1,b") as [H _].
  destruct H as (es & H1 & H2).
  - reflexivity.
  - constructor; [right; reflexivity|].
    constructor; [left; reflexivity|]. constructor.
  - simpl in H2. rewrite H1, H2. reflexivity.
Defined.

(* ===================================================================== *)
(** ** Serialize, then parse *)
(* ===================================================================== *)

(** No line break inside. *)
Definition no_newline (s : string) : bool :=
  Py.all (fun c => negb (Ascii.eqb c LF) && negb (Ascii.eqb c CR)) s.

(** The six fields the round trip is about. *)
Definition same_fields (e e' : M3UEntry) : Prop :=
  name e = name e' /\ url e = url e' /\ group e = group e' /\ logo e = logo e'
  /\ duration e = duration e' /\ user_agent e = user_agent e'.

(** The entries the text format can carry unchanged:
    - the duration is one or more of the characters - and 0..9;
    - no field contains a line break;
    - the name has no comma and no whitespace at either end;
    - group and logo have no double quote, and when there is a logo the
      group does not end with the text tvg-logo= ;
    - the user agent has no whitespace at its end;
    - the URL is not empty, has no whitespace at either end and does not
      start with # . *)
Definition round_trips (e : M3UEntry) : bool :=
  Py.all Re.minus_digit (duration e) && truthy (duration e)
  && no_newline (name e) && Py.all (differs comma) (name e)
  && String.eqb (Py.strip (name e)) (name e)
  && no_newline (group e) && Py.all Re.not_dquote (group e)
  && no_newline (logo e) && Py.all Re.not_dquote (logo e)
  && (negb (truthy (logo e)) || negb (Py.endswith (group e) "tvg-logo="))
  && no_newline (user_agent e)
  && String.eqb (Py.rstrip (user_agent e)) (user_agent e)
  && no_newline (url e) && String.eqb (Py.strip (url e)) (url e)
  && truthy (url e) && negb (Py.startswith (url e) "#").

(** What the parser makes of a serialized entry: the entry without its raw
    metadata, which the parser never fills in. *)
Definition parsed_back (e : M3UEntry) : M3UEntry :=
  mkEntry (name e) (url e) (group e) (logo e) (duration e) (user_agent e) "".

Section Strip.

Lemma lstrip_length (s : string) : (String.length (Py.lstrip s) <= String.length s)%nat.
Proof.
  induction s as [|c s IH]; simpl; [done|].
  destruct (Py.isspace c); simpl; lia.
Qed.

Lemma rstrip_length (s : string) : (String.length (Py.rstrip s) <= String.length s)%nat.
Proof.
  induction s as [|c s IH]; simpl; [done|].
  destruct (Py.rstrip s); [destruct (Py.isspace c)|]; simpl in *; lia.
Qed.

Lemma lstrip_fix (s : string) :
  String.length (Py.lstrip s) = String.length s -> Py.lstrip s = s.
Proof.
  destruct s as [|c s]; simpl; [done|].
  destruct (Py.isspace c); [|done].
  pose proof (lstrip_length s). lia.
Qed.

Lemma strip_lstrip (s : string) : Py.strip s = s -> Py.lstrip s = s.
Proof.
  intros H. apply lstrip_fix.
  pose proof (lstrip_length s). pose proof (rstrip_length (Py.lstrip s)).
  unfold Py.strip in H. rewrite H in H1. lia.
Qed.

Lemma strip_rstrip (s : string) : Py.strip s = s -> Py.rstrip s = s.
Proof.
  intros H. pose proof (strip_lstrip s H) as Hl.
  unfold Py.strip in H. by rewrite Hl in H.
Qed.

Lemma lstrip_head (s : string) :
  Py.lstrip s = s -> s <> "" -> exists c s', s = String c s' /\ Py.isspace c = false.
Proof.
  destruct s as [|c s]; [done|]. intros H _. exists c, s. split; [done|].
  simpl in H. destruct (Py.isspace c); [|done].
  pose proof (lstrip_length s). rewrite H in H0. simpl in H0. lia.
Qed.

Lemma rstrip_app (a b : string) :
  Py.rstrip (a +:+ b) =
  match Py.rstrip b with
  | "" => Py.rstrip a
  | r => a +:+ r
  end.
Proof.
  induction a as [|c a IH]; simpl.
  - by destruct (Py.rstrip b).
  - rewrite IH. destruct (Py.rstrip b) as [|x r]; [done|].
    by destruct a.
Qed.

(** A line of the file, stripped: the text before the newline, when it does
    not end with whitespace. *)
Lemma rstrip_line (a b : string) :
  Py.rstrip b = b -> b <> "" -> Py.rstrip (a +:+ b +:+ chr LF) = a +:+ b.
Proof.
  intros Hb Hne. rewrite rstrip_app, rstrip_app. simpl. rewrite Hb.
  by destruct b.
Qed.

Lemma rstrip_cons (c : ascii) (s : string) :
  Py.isspace c = false -> Py.rstrip s = s -> Py.rstrip (String c s) = String c s.
Proof.
  intros Hc Hs. simpl. rewrite Hs, Hc. by destruct s.
Qed.

Lemma strip_line (c : ascii) (s : string) :
  Py.isspace c = false -> Py.rstrip s = s ->
  Py.strip (String c s +:+ chr LF) = String c s.
Proof.
  intros Hc Hs. unfold Py.strip. simpl Py.lstrip. rewrite Hc.
  change (String c (s +:+ chr LF)) with ("" +:+ String c s +:+ chr LF).
  rewrite rstrip_line; [done | by apply rstrip_cons | done].
Qed.

Lemma no_newline_app (a b : string) :
  no_newline (a +:+ b) = no_newline a && no_newline b.
Proof. apply all_app. Qed.

(** [readlines] cuts after the first newline of a text whose first line has
    no other line break. *)
Lemma readlines_line (l rest : string) :
  no_newline l = true ->
  readlines_from false (l +:+ chr LF +:+ rest) = (l +:+ chr LF) :: readlines_from false rest.
Proof.
  induction l as [|c l IH]; intros Hl.
  - reflexivity.
  - simpl in Hl. apply andb_prop in Hl as [Hc Hl].
    apply andb_prop in Hc as [Hlf Hcr]. apply negb_true_iff in Hlf, Hcr.
    cbn [String.append readlines_from]. rewrite Hlf, Hcr, (IH Hl). done.
Qed.

End Strip.

(** The pattern key=Q...Q of one attribute. *)
Definition attr_re (key : string) : Re.pattern :=
  [Re.Lit (key +:+ chr dquote); Re.Cap Re.not_dquote 0; Re.Lit (chr dquote)].

Section Patterns.

Lemma all_impl (p q : ascii -> bool) (s : string) :
  (forall c, p c = true -> q c = true) -> Py.all p s = true -> Py.all q s = true.
Proof.
  intros Hpq. induction s as [|c s IH]; simpl; [done|].
  intros [Hc Hs]%andb_prop. by rewrite (Hpq c Hc), IH.
Qed.

Lemma no_newline_dot (s : string) : no_newline s = true -> Py.all Re.dot s = true.
Proof.
  apply all_impl. intros c [H _]%andb_prop. exact H.
Qed.

(** The metadata pattern on a line built as the serializer builds it. *)
Lemma exec_extinf (d attrs n : string) :
  Py.all Re.minus_digit d = true -> d <> "" ->
  (attrs = "" \/ exists c r, attrs = String c r /\ Re.minus_digit c = false) ->
  Py.all Re.dot attrs = true -> Py.all Re.dot n = true ->
  Py.all (differs comma) n = true ->
  Re.exec extinf_re ("#EXTINF:" +:+ d +:+ attrs +:+ "," +:+ n) = Some [d; attrs; n].
Proof.
  intros Hd Hne Hattrs Hdot Hn Hcomma.
  unfold extinf_re. cbn [Re.exec]. rewrite strip_prefix_app.
  apply greedy_first_success; [done | | |].
  - simpl. destruct d; [done | simpl; lia].
  - cbn [String.append].
    rewrite (greedy_first_success Re.dot 0 _ attrs ("," +:+ n) "" [attrs; n]);
      [done | done | simpl; lia | |].
    + cbn [String.append Re.exec].
      rewrite (strip_prefix_app "," n : Re.strip_prefix "," (String "," n) = Some n).
      rewrite <- (sapp_nil_r n) at 1.
      rewrite (greedy_first_success Re.dot 0 _ n "" "" [n]); [done | done | simpl; lia | done |].
      intros b1 b2 Hb Hb1. by destruct b1.
    + intros b1 b2 Hb Hb1 _. cbn [String.append Re.exec].
      destruct b1 as [|x b1]; [done|]. simpl in Hb. injection Hb as <- ->.
      rewrite all_app in Hcomma. apply andb_prop in Hcomma as [_ Hb2].
      destruct b2 as [|y b2]; [done|]. cbn [Py.all] in Hb2.
      apply andb_prop in Hb2 as [Hy _]. unfold differs, comma in Hy.
      apply negb_true_iff in Hy. rewrite Ascii.eqb_sym in Hy.
      by rewrite (strip_prefix_mismatch _ _ _ _ Hy).
  - intros b1 b2 Hb Hb1 Hall. exfalso.
    destruct b1 as [|x b1]; [done|]. simpl in Hall.
    apply andb_prop in Hall as [Hx _].
    destruct Hattrs as [-> | (c & r & -> & Hc)]; simpl in Hb; injection Hb as <- _.
    + done.
    + congruence.
Qed.

Lemma exec_attr_complete (key v rest : string) :
  Py.all Re.not_dquote v = true ->
  Re.exec (attr_re key) ((key +:+ chr dquote) +:+ v +:+ chr dquote +:+ rest) = Some [v].
Proof.
  intros Hv. unfold attr_re. cbn [Re.exec]. rewrite strip_prefix_app.
  apply greedy_first_success; [done | simpl; lia | |].
  - cbn [String.append]. by rewrite (strip_prefix_app (chr dquote) rest).
  - intros b1 b2 Hb Hb1 Hall. exfalso.
    destruct b1 as [|x b1]; [done|]. simpl in Hb. injection Hb as <- _.
    simpl in Hall. done.
Qed.

Lemma exec_attr_sound (key s : string) (m : list string) :
  Re.exec (attr_re key) s = Some m ->
  exists v rest, s = (key +:+ chr dquote) +:+ v +:+ chr dquote +:+ rest /\ m = [v].
Proof.
  unfold attr_re. cbn [Re.exec].
  destruct (Re.strip_prefix (key +:+ chr dquote) s) as [r|] eqn:Hp; [|done].
  apply strip_prefix_Some in Hp as ->.
  intros H. apply greedy_sound in H as (g & rest' & -> & _ & _ & Hk).
  cbn [String.append] in Hk.
  destruct (Re.strip_prefix (chr dquote) rest') as [rest|] eqn:Hq; [|done].
  apply strip_prefix_Some in Hq as ->. simpl in Hk. injection Hk as <-.
  by exists g, rest.
Qed.

(** A text is cut at its first double quote in one way only. *)
Lemma first_quote_unique (a : string) : forall b x y,
  Py.all Re.not_dquote a = true -> Py.all Re.not_dquote b = true ->
  a +:+ chr dquote +:+ x = b +:+ chr dquote +:+ y -> a = b /\ x = y.
Proof.
  induction a as [|c a IH]; intros b x y Ha Hb Heq.
  - destruct b as [|d b]; simpl in Heq.
    + by injection Heq as ->.
    + injection Heq as <- _. simpl in Hb. done.
  - simpl in Ha. apply andb_prop in Ha as [Hc Ha].
    destruct b as [|d b]; simpl in Heq.
    + injection Heq as -> _. done.
    + injection Heq as -> Heq. simpl in Hb. apply andb_prop in Hb as [_ Hb].
      destruct (IH b x y Ha Hb Heq) as [-> ->]. done.
Qed.

Lemma endswith_refl (s : string) : Py.endswith s s = true.
Proof. destruct s; simpl; [done|]. by rewrite Ascii.eqb_refl, String.eqb_refl. Qed.

Lemma endswith_tail (c : ascii) (s p : string) :
  Py.endswith (String c s) p = false -> Py.endswith s p = false.
Proof.
  cbn [Py.endswith]. by destruct (String.eqb (String c s) p).
Qed.

(** Searching for an attribute through the value of another one finds
    nothing before the closing quote of that value, unless the value ends
    with the key and more quotes follow. *)
Lemma search_through_value (key tail : string) (V : string) :
  Py.all Re.not_dquote key = true ->
  Py.all Re.not_dquote V = true ->
  (Py.endswith V key = false \/ Py.all Re.not_dquote tail = true) ->
  Re.search (attr_re key) (V +:+ chr dquote +:+ tail)
  = Re.search (attr_re key) (chr dquote +:+ tail).
Proof.
  intros Hkey. induction V as [|c V IH]; intros HV Hor; [done|].
  cbn [String.append Re.search].
  destruct (Re.exec (attr_re key) (String c (V +:+ chr dquote +:+ tail))) as [m|] eqn:Hm.
  - exfalso. apply exec_attr_sound in Hm as (v & rest & Heq & _).
    rewrite sapp_assoc in Heq.
    change (String c (V +:+ chr dquote +:+ tail))
      with (String c V +:+ chr dquote +:+ tail) in Heq.
    apply first_quote_unique in Heq as [Hk Ht]; [|done|done].
    destruct Hor as [He | Ht'].
    + rewrite Hk, endswith_refl in He. done.
    + rewrite Ht, all_app in Ht'. apply andb_prop in Ht' as [_ Ht'].
      simpl in Ht'. done.
  - simpl in HV. apply andb_prop in HV as [_ HV]. apply IH; [done|].
    destruct Hor as [He | Ht]; [left; by eapply endswith_tail | by right].
Qed.

End Patterns.

(** The attributes text of [to_m3u_string], and its metadata line. *)
Definition attr_str_of (e : M3UEntry) : string :=
  let logo_attr :=
    if truthy (logo e)
    then " " +:+ ("tvg-logo=" +:+ chr dquote) +:+ logo e +:+ chr dquote +:+ ""
    else "" in
  if truthy (group e)
  then " " +:+ ("group-title=" +:+ chr dquote) +:+ group e +:+ chr dquote +:+ logo_attr
  else logo_attr.

Definition extinf_line (e : M3UEntry) : string :=
  "#EXTINF:" +:+ duration e +:+ attr_str_of e +:+ "," +:+ name e.

Definition option_line (e : M3UEntry) : string :=
  "#EXTVLCOPT:http-user-agent=" +:+ user_agent e.

(** A text that keeps its end when stripped on the right. *)
Definition ends_clean (b : string) : Prop := Py.rstrip b = b /\ b <> "".

Section Lines.

Lemma ends_clean_app (a b : string) : ends_clean b -> ends_clean (a +:+ b).
Proof.
  intros [Hb Hne]. split.
  - rewrite rstrip_app, Hb. by destruct b.
  - destruct a; [done|]. done.
Qed.

Lemma ends_clean_cons (c : ascii) (b : string) :
  Py.isspace c = false -> Py.rstrip b = b -> ends_clean (String c b).
Proof. intros Hc Hb. split; [by apply rstrip_cons | done]. Qed.

Lemma strip_clean_line (c : ascii) (s : string) :
  Py.isspace c = false -> ends_clean (String c s) ->
  Py.strip (String c s +:+ chr LF) = String c s.
Proof.
  intros Hc [Hr _]. unfold Py.strip. cbn [String.append Py.lstrip]. rewrite Hc.
  change (String c (s +:+ chr LF)) with (String c s +:+ chr LF).
  rewrite rstrip_app. simpl Py.rstrip at 1. cbv iota. exact Hr.
Qed.

Lemma strip_clean (c : ascii) (s : string) :
  Py.isspace c = false -> ends_clean (String c s) -> Py.strip (String c s) = String c s.
Proof.
  intros Hc [Hr _]. unfold Py.strip. cbn [Py.lstrip]. by rewrite Hc.
Qed.

Lemma startswith_app (p x : string) : Py.startswith (p +:+ x) p = true.
Proof.
  induction p as [|c p IH]; cbn [String.append Py.startswith].
  - by destruct x.
  - by rewrite Ascii.eqb_refl.
Qed.

Lemma startswith_hash_false (s p : string) :
  Py.startswith s "#" = false -> Py.startswith s (String "#" p) = false.
Proof.
  destruct s as [|c s]; cbn [Py.startswith]; [done|].
  destruct (Ascii.eqb "#" c); [by destruct s | done].
Qed.

Lemma lower_app (a b : string) : Py.lower (a +:+ b) = Py.lower a +:+ Py.lower b.
Proof. induction a as [|c a IH]; simpl; [done|]. by rewrite IH. Qed.

(** [to_m3u_string], line by line. *)
Lemma to_m3u_string_lines (e : M3UEntry) :
  to_m3u_string e =
  extinf_line e +:+ chr LF +:+
    (if truthy (user_agent e) then option_line e +:+ chr LF +:+ url e else url e).
Proof.
  unfold to_m3u_string, extinf_line, option_line, attr_str_of.
  destruct (truthy (group e)), (truthy (logo e)), (truthy (user_agent e));
    cbn -[String.append]; cbn [String.append truthy String.eqb negb];
    rewrite ?sapp_assoc, ?sapp_nil_r; cbn [String.append]; reflexivity.
Qed.

End Lines.

Section Attributes.

Lemma search_mismatch (k c : ascii) (key s : string) :
  Ascii.eqb k c = false ->
  Re.search (attr_re (String k key)) (String c s) = Re.search (attr_re (String k key)) s.
Proof.
  intros H. unfold attr_re. cbn [Re.search Re.exec String.append].
  by rewrite (strip_prefix_mismatch _ _ _ _ H).
Qed.

Lemma search_mismatch_chr (k c : ascii) (key s : string) :
  Ascii.eqb k c = false ->
  Re.search (attr_re (String k key)) (chr c +:+ s) = Re.search (attr_re (String k key)) s.
Proof. apply search_mismatch. Qed.

Lemma search_here (p : Re.pattern) (s : string) (m : list string) :
  Re.exec p s = Some m -> Re.search p s = Some m.
Proof. intros H. destruct s; cbn [Re.search]; by rewrite H. Qed.

Lemma search_empty (k : ascii) (key : string) :
  Re.search (attr_re (String k key)) "" = None.
Proof. reflexivity. Qed.

Variables G L : string.
Hypothesis HG : Py.all Re.not_dquote G = true.
Hypothesis HL : Py.all Re.not_dquote L = true.

Let group_attr (rest : string) : string :=
  " " +:+ ("group-title=" +:+ chr dquote) +:+ G +:+ chr dquote +:+ rest.
Let logo_attr : string :=
  " " +:+ ("tvg-logo=" +:+ chr dquote) +:+ L +:+ chr dquote +:+ "".

Lemma search_group_present (rest : string) :
  Re.search group_re (group_attr rest) = Some [G].
Proof.
  change group_re with (attr_re "group-title=").
  unfold group_attr. cbn [String.append]. rewrite search_mismatch by done.
  apply search_here.
  exact (exec_attr_complete "group-title=" G rest HG).
Qed.

Lemma search_logo_present : Re.search logo_re logo_attr = Some [L].
Proof.
  change logo_re with (attr_re "tvg-logo=").
  unfold logo_attr. cbn [String.append]. rewrite search_mismatch by done.
  apply search_here.
  exact (exec_attr_complete "tvg-logo=" L "" HL).
Qed.

Lemma search_group_absent : Re.search group_re logo_attr = None.
Proof.
  change group_re with (attr_re "group-title=").
  change logo_attr with (" tvg-logo=" +:+ chr dquote +:+ L +:+ chr dquote +:+ "").
  rewrite search_through_value; [|done|done|by left].
  rewrite search_mismatch_chr by done.
  rewrite search_through_value; [|done|done|by right].
  rewrite search_mismatch_chr by done.
  reflexivity.
Qed.

Lemma search_logo_absent : Re.search logo_re (group_attr "") = None.
Proof.
  change logo_re with (attr_re "tvg-logo=").
  change (group_attr "") with (" group-title=" +:+ chr dquote +:+ G +:+ chr dquote +:+ "").
  rewrite search_through_value; [|done|done|by left].
  rewrite search_mismatch_chr by done.
  rewrite search_through_value; [|done|done|by right].
  rewrite search_mismatch_chr by done.
  reflexivity.
Qed.

Lemma search_logo_after_group :
  Py.endswith G "tvg-logo=" = false ->
  Re.search logo_re (group_attr logo_attr) = Some [L].
Proof.
  intros Hend.
  change logo_re with (attr_re "tvg-logo=").
  change (group_attr logo_attr)
    with (" group-title=" +:+ chr dquote +:+ G +:+ chr dquote +:+ logo_attr).
  rewrite search_through_value; [|done|done|by left].
  rewrite search_mismatch_chr by done.
  rewrite search_through_value; [|done|done|by left].
  rewrite search_mismatch_chr by done.
  exact search_logo_present.
Qed.

End Attributes.

Section RoundTrip.

Lemma round_trips_facts (e : M3UEntry) :
  round_trips e = true ->
  (Py.all Re.minus_digit (duration e) = true /\ duration e <> "")
  /\ (no_newline (name e) = true /\ Py.all (differs comma) (name e) = true
      /\ Py.strip (name e) = name e)
  /\ (no_newline (group e) = true /\ Py.all Re.not_dquote (group e) = true)
  /\ (no_newline (logo e) = true /\ Py.all Re.not_dquote (logo e) = true)
  /\ (logo e = "" \/ Py.endswith (group e) "tvg-logo=" = false)
  /\ (no_newline (user_agent e) = true /\ Py.rstrip (user_agent e) = user_agent e)
  /\ (no_newline (url e) = true /\ Py.strip (url e) = url e /\ url e <> ""
      /\ Py.startswith (url e) "#" = false).
Proof.
  unfold round_trips. intros H. rewrite !andb_true_iff in H.
  destruct H as [[[[[[[[[[[[[[[H1 H2] H3] H4] H5] H6] H7] H8] H9] H10] H11] H12]
                     H13] H14] H15] H16].
  apply truthy_true in H2, H15.
  apply String.eqb_eq in H5, H12, H14.
  apply negb_true_iff in H16.
  repeat split; try done.
  apply orb_prop in H10 as [H10 | H10].
  - left. by apply negb_true_iff, truthy_false in H10.
  - right. by apply negb_true_iff in H10.
Qed.

Lemma attr_str_no_newline (e : M3UEntry) :
  no_newline (group e) = true -> no_newline (logo e) = true ->
  no_newline (attr_str_of e) = true.
Proof.
  intros Hg Hl. unfold attr_str_of.
  destruct (truthy (group e)), (truthy (logo e));
    rewrite ?no_newline_app, ?Hg, ?Hl; reflexivity.
Qed.

Lemma attr_str_head (e : M3UEntry) :
  attr_str_of e = ""
  \/ exists c r, attr_str_of e = String c r /\ Re.minus_digit c = false.
Proof.
  unfold attr_str_of.
  destruct (truthy (group e)), (truthy (logo e)); cbn [String.append];
    first [by left | right; by eexists _, _].
Qed.

(** The parser reads the metadata line of a serialized entry back. *)
Lemma parse_extinf_serialized (e : M3UEntry) :
  round_trips e = true ->
  parse_extinf (extinf_line e)
  = Some (mkEntry (name e) "" (group e) (logo e) (duration e) "" "").
Proof.
  intros H.
  destruct (round_trips_facts e H)
    as ((Hd & Hdne) & (Hnn & Hnc & Hns) & (Hgn & Hgq) & (Hln & Hlq) & Hattr & _).
  unfold parse_extinf, Re.rmatch, extinf_line.
  rewrite exec_extinf; try done.
  2: apply attr_str_head.
  2: apply no_newline_dot, attr_str_no_newline; done.
  2: by apply no_newline_dot.
  unfold Re.group. cbn [Nat.sub nth]. rewrite Hns.
  unfold attr_str_of.
  destruct (truthy (group e)) eqn:Hg, (truthy (logo e)) eqn:Hl.
  - rewrite (search_group_present (group e) Hgq).
    destruct Hattr as [Hno | Hend]; [apply truthy_true in Hl; done|].
    rewrite (search_logo_after_group (group e) (logo e) Hgq Hlq Hend). reflexivity.
  - rewrite (search_group_present (group e) Hgq).
    rewrite (search_logo_absent (group e) Hgq).
    apply truthy_false in Hl. destruct e; simpl in *; by subst.
  - rewrite (search_group_absent (logo e) Hlq).
    rewrite (search_logo_present (logo e) Hlq).
    apply truthy_false in Hg. destruct e; simpl in *; by subst.
  - apply truthy_false in Hg, Hl. destruct e; simpl in *; by subst.
Qed.

End RoundTrip.

Section RoundTripLines.

(** A line that strips to a metadata line starts a new entry. *)
Lemma parse_line_extinf (st : pstate) (l x : string) :
  Py.strip l = "#EXTINF:" +:+ x ->
  parse_line st l =
  (cur ← parse_extinf ("#EXTINF:" +:+ x); Some (mkPstate (entries_of st) (Some cur))).
Proof.
  intros H. unfold parse_line. rewrite H. by destruct x.
Qed.

(** A line that strips to a user-agent option annotates the entry in
    progress. *)
Lemma parse_line_option (st : pstate) (l ua : string) (cur : M3UEntry) :
  Py.strip l = "#EXTVLCOPT:http-user-agent=" +:+ ua ->
  Py.rstrip ua = ua -> ua <> "" ->
  current_entry st = Some cur ->
  parse_line st l = Some (mkPstate (entries_of st) (Some (set_user_agent ua cur))).
Proof.
  intros H Hua Hne Hcur. unfold parse_line. rewrite H, Hcur.
  set (line := "#EXTVLCOPT:http-user-agent=" +:+ ua).
  assert (Hopt : Py.strip (Py.slice_from 11 line) = "http-user-agent=" +:+ ua).
  { change (Py.slice_from 11 line) with (String "h" ("ttp-user-agent=" +:+ ua)).
    apply strip_clean; [done|].
    change (String "h" ("ttp-user-agent=" +:+ ua)) with ("http-user-agent=" +:+ ua).
    by apply ends_clean_app. }
  assert (Hlow : Py.startswith (Py.lower ("http-user-agent=" +:+ ua)) "http-user-agent=" = true).
  { rewrite lower_app. apply (startswith_app "http-user-agent="). }
  assert (Hsplit : Py.split1 "="%char ("http-user-agent=" +:+ ua) !! 1%nat = Some ua).
  { change ("http-user-agent=" +:+ ua) with ("http-user-agent" +:+ String "=" ua).
    by rewrite split1_cut. }
  assert (truthy line = true) as -> by reflexivity.
  assert (Py.startswith line "#EXTM3U" = false) as -> by reflexivity.
  assert (Py.startswith line "#EXTINF:" = false) as -> by reflexivity.
  assert (Py.startswith line "#EXTVLCOPT:" = true) as ->
    by apply (startswith_app "#EXTVLCOPT:" ("http-user-agent=" +:+ ua)).
  cbn [negb]. rewrite Hopt, Hlow, Hsplit. reflexivity.
Qed.

(** A non-blank line that does not start with # closes the entry in
    progress, or stands for an entry of its own. *)
Lemma parse_line_url (st : pstate) (l u : string) :
  Py.strip l = u -> u <> "" -> Py.startswith u "#" = false ->
  parse_line st l =
  Some (mkPstate
          (entries_of st ++
           [match current_entry st with
            | Some cur => set_url u cur
            | None => new_entry "Unknown" u
            end]) None).
Proof.
  intros H Hne Hh. unfold parse_line. rewrite H.
  apply truthy_true in Hne. rewrite Hne.
  rewrite !startswith_hash_false by done.
  cbn [negb]. by destruct (current_entry st).
Qed.

Lemma strip_extinf_line (e : M3UEntry) :
  Py.strip (name e) = name e ->
  Py.strip (extinf_line e +:+ chr LF) = extinf_line e.
Proof.
  intros Hn.
  change (extinf_line e)
    with (String "#" ("EXTINF:" +:+ duration e +:+ attr_str_of e +:+ "," +:+ name e)).
  apply strip_clean_line; [done|].
  change (String "#" ("EXTINF:" +:+ duration e +:+ attr_str_of e +:+ "," +:+ name e))
    with ("#EXTINF:" +:+ duration e +:+ attr_str_of e +:+ String "," (name e)).
  do 3 apply ends_clean_app.
  apply ends_clean_cons; [done|]. by apply strip_rstrip.
Qed.

Lemma strip_option_line (e : M3UEntry) :
  Py.rstrip (user_agent e) = user_agent e -> user_agent e <> "" ->
  Py.strip (option_line e +:+ chr LF) = option_line e.
Proof.
  intros Hr Hne.
  change (option_line e) with (String "#" ("EXTVLCOPT:http-user-agent=" +:+ user_agent e)).
  apply strip_clean_line; [done|].
  change (String "#" ("EXTVLCOPT:http-user-agent=" +:+ user_agent e))
    with ("#EXTVLCOPT:http-user-agent=" +:+ user_agent e).
  by apply ends_clean_app.
Qed.

Lemma strip_url_line (u : string) :
  Py.strip u = u -> u <> "" -> Py.strip (u +:+ chr LF) = u.
Proof.
  intros Hs Hne.
  destruct (lstrip_head u (strip_lstrip u Hs) Hne) as (c & s & -> & Hc).
  apply strip_clean_line; [done|]. split; [by apply strip_rstrip | done].
Qed.

Lemma extinf_line_no_newline (e : M3UEntry) :
  no_newline (duration e) = true -> no_newline (group e) = true ->
  no_newline (logo e) = true -> no_newline (name e) = true ->
  no_newline (extinf_line e) = true.
Proof.
  intros Hd Hg Hl Hn. unfold extinf_line.
  rewrite !no_newline_app, Hd, Hn, (attr_str_no_newline e Hg Hl). reflexivity.
Qed.

Lemma minus_digit_no_newline (s : string) :
  Py.all Re.minus_digit s = true -> no_newline s = true.
Proof.
  apply all_impl. intros c.
  destruct c as [[] [] [] [] [] [] [] []]; vm_compute; congruence.
Qed.

(** The lines of one serialized entry, read back from the text. *)
Lemma parse_serialized_entry (e : M3UEntry) (rest : string) (st : pstate) :
  round_trips e = true -> current_entry st = None ->
  parse_loop st (readlines_from false (to_m3u_string e +:+ chr LF +:+ rest))
  = parse_loop (mkPstate (entries_of st ++ [parsed_back e]) None)
      (readlines_from false rest).
Proof.
  intros H Hcur.
  destruct (round_trips_facts e H)
    as ((Hd & Hdne) & (Hnn & Hnc & Hns) & (Hgn & Hgq) & (Hln & Hlq) & Hattr
        & (Han & Har) & (Hun & Hus & Hune & Huh)).
  rewrite to_m3u_string_lines, !sapp_assoc.
  rewrite readlines_line
    by (apply extinf_line_no_newline; auto using minus_digit_no_newline).
  cbn [parse_loop].
  rewrite (parse_line_extinf st _ (duration e +:+ attr_str_of e +:+ "," +:+ name e))
    by (by apply strip_extinf_line).
  fold (extinf_line e). rewrite (parse_extinf_serialized e H).
  set (e1 := mkEntry (name e) "" (group e) (logo e) (duration e) "" "").
  cbn [mbind option_bind].
  destruct (truthy (user_agent e)) eqn:Hua.
  - apply truthy_true in Hua. rewrite !sapp_assoc.
    rewrite readlines_line
      by (unfold option_line; rewrite no_newline_app, Han; reflexivity).
    cbn [parse_loop].
    rewrite (parse_line_option (mkPstate (entries_of st) (Some e1)) _ (user_agent e) e1
               (strip_option_line e Har Hua) Har Hua eq_refl).
    cbn [mbind option_bind].
    rewrite (readlines_line (url e) rest Hun). cbn [parse_loop].
    rewrite (parse_line_url _ _ (url e) (strip_url_line _ Hus Hune) Hune Huh).
    cbn [mbind option_bind]. reflexivity.
  - apply truthy_false in Hua.
    rewrite (readlines_line (url e) rest Hun). cbn [parse_loop].
    rewrite (parse_line_url _ _ (url e) (strip_url_line _ Hus Hune) Hune Huh).
    cbn [mbind option_bind entries_of current_entry].
    unfold parsed_back, set_url. simpl. by rewrite Hua.
Qed.

Lemma parse_written_entries (es : list M3UEntry) : forall st,
  forallb round_trips es = true -> current_entry st = None ->
  parse_loop st (readlines_from false (write_entries es))
  = Some (mkPstate (entries_of st ++ (parsed_back <$> es)) None).
Proof.
  induction es as [|e es IH]; intros st Hes Hcur.
  - simpl. rewrite app_nil_r. by destruct st; simpl in *; subst.
  - simpl in Hes. apply andb_prop in Hes as [He Hes].
    cbn [write_entries]. rewrite sapp_assoc.
    rewrite (parse_serialized_entry e _ st He Hcur).
    rewrite IH; [|done|done]. simpl. by rewrite <- app_assoc.
Qed.

End RoundTripLines.

(** C1, as the code has it. Writing a playlist with [save_file] and reading
    the text back with [parse_file] returns the same entries in the same
    order, equal on name, url, group, logo, duration and user agent, provided
    every entry is one the text format can carry: see [round_trips]. *)
Theorem parse_save_roundtrip (P : list M3UEntry) :
  forallb round_trips P = true ->
  exists P', parse_file (save_file P) = Some P'
    /\ Forall2 same_fields P P'
    /\ P' = parsed_back <$> P.
Proof.
  intros HP. exists (parsed_back <$> P).
  split; [|split; [|done]].
  - unfold parse_file, save_file, readlines, parse_lines.
    rewrite sapp_assoc, (readlines_line "#EXTM3U" _ eq_refl).
    cbn [parse_loop].
    change (parse_line (mkPstate [] None) ("#EXTM3U" +:+ chr LF))
      with (Some (mkPstate [] None)).
    cbn [mbind option_bind].
    rewrite (parse_written_entries P (mkPstate [] None) HP eq_refl). reflexivity.
  - clear HP. induction P as [|e P IH]; simpl; constructor; [|done].
    by repeat split.
Qed.

Lemma parse_save_roundtrip_witness :
  let e1 := mkEntry "News 1" "http://host/a.m3u8" "News, world" "http://host/l.png" "-1" "VLC/3.0" "" in
  let e2 := new_entry "Plain" "rtsp://host/b" in
  parse_file (save_file [e1; e2]) = Some [e1; e2].
Proof.
  intros e1 e2.
  destruct (parse_save_roundtrip [e1; e2]) as (P' & Hp & _ & ->).
  - reflexivity.
  - exact Hp.
Defined.

(** C1 as stated fails: an entry whose name contains a comma satisfies the
    Entry invariants (name and url are strings, the duration is -1), and
    comes back from the text with the part of its name after the last
    comma only. *)
Lemma parse_save_roundtrip_counterexample :
  let e := new_entry "News, world" "http://host/a" in
  spec_duration (duration e)
  /\ exists e', parse_file (save_file [e]) = Some [e']
       /\ name e' = "world" /\ ~ same_fields e e'.
Proof.
  split; [by left|].
  eexists. split; [reflexivity|]. split; [reflexivity|].
  intros [H _]. discriminate.
Qed.

(* ===================================================================== *)
(** * Further properties of the parser *)
(* ===================================================================== *)

(** A line that closes an entry: not blank and not starting with # once
    stripped. *)
Definition is_url_line (l : string) : bool :=
  truthy (Py.strip l) && negb (Py.startswith (Py.strip l) "#").

(** A line the parser passes over: blank, or starting with # without being
    a metadata line or an option line. *)
Definition ignored_line (l : string) : Prop :=
  Py.strip l = ""
  \/ (Py.startswith (Py.strip l) "#" = true
      /\ Py.startswith (Py.strip l) "#EXTINF:" = false
      /\ Py.startswith (Py.strip l) "#EXTVLCOPT:" = false).

Section ParserMore.

Lemma is_url_line_true (l : string) :
  is_url_line l = true ->
  Py.strip l <> "" /\ Py.startswith (Py.strip l) "#" = false.
Proof.
  unfold is_url_line. intros [H1 H2]%andb_prop.
  split; [by apply truthy_true | by apply negb_true_iff].
Qed.

Lemma is_url_line_false (l : string) : is_url_line l = false -> comment_or_blank l.
Proof.
  unfold is_url_line, comment_or_blank. intros [H | H]%andb_false_iff.
  - left. by apply truthy_false.
  - right. by apply negb_false_iff.
Qed.

Lemma parse_loop_urls (lines : list string) : forall st st',
  parse_loop st lines = Some st' ->
  url <$> entries_of st' =
  (url <$> entries_of st) ++ (Py.strip <$> filter (fun l => is_url_line l = true) lines).
Proof.
  induction lines as [|l lines IH]; intros st st' H; simpl in H.
  - injection H as <-. by rewrite app_nil_r.
  - destruct (is_url_line l) eqn:Hl.
    + destruct (is_url_line_true l Hl) as [Hne Hh].
      rewrite (parse_line_url st l _ eq_refl Hne Hh) in H. simpl in H.
      rewrite (IH _ _ H). simpl. rewrite filter_cons_True by done.
      rewrite fmap_app, <- app_assoc. simpl. f_equal. f_equal.
      by destruct (current_entry st).
    + destruct (parse_line_comment st l (is_url_line_false l Hl)) as (st1 & Hst1 & He).
      rewrite Hst1 in H. simpl in H. rewrite (IH _ _ H), He.
      rewrite filter_cons_False; [done|]. by rewrite Hl.
Qed.

Lemma parse_line_ignored (st : pstate) (l : string) :
  ignored_line l -> parse_line st l = Some st.
Proof.
  unfold parse_line. intros [H | (Hh & Hi & Ho)].
  - by rewrite H.
  - rewrite Hi, Ho, Hh. simpl.
    by destruct (truthy (Py.strip l)), (Py.startswith (Py.strip l) "#EXTM3U").
Qed.

Lemma startswith_split (p : string) : forall s,
  Py.startswith s p = true -> exists x, s = p +:+ x.
Proof.
  induction p as [|a p IH]; intros s H.
  - by exists s.
  - destruct s as [|b s]; [done|]. cbn [Py.startswith] in H.
    destruct (Ascii.eqb_spec a b) as [->|]; [|done].
    destruct (IH s H) as [x ->]. by exists x.
Qed.

(** A metadata line sets the entry in progress from the line alone. *)
Lemma parse_line_metadata (st : pstate) (m : string) :
  Py.startswith (Py.strip m) "#EXTINF:" = true ->
  exists cur, parse_line st m = Some (mkPstate (entries_of st) (Some cur))
    /\ forall st2, parse_line st2 m = Some (mkPstate (entries_of st2) (Some cur)).
Proof.
  intros H. destruct (startswith_split _ _ H) as [x Hx].
  destruct (parse_extinf_total ("#EXTINF:" +:+ x)) as [cur Hcur].
  exists cur. split; [|intros st2]; rewrite (parse_line_extinf _ m x Hx), Hcur; done.
Qed.

End ParserMore.

(** The parser never raises: whatever the lines, [parse_lines] returns a
    list. In particular the index [1] taken from [opt.split('=', 1)] is
    always there, the option text having been seen to start with
    http-user-agent= . *)
Theorem parse_lines_never_raises (lines : list string) :
  exists es, parse_lines lines = Some es.
Proof. destruct (parse_lines_total lines) as [es H]. by exists es. Qed.

(** One entry per URL line: the URLs of the parsed entries are the stripped
    texts of the lines that are neither blank nor start with #, in the order
    of the input. *)
Theorem parse_lines_urls (lines : list string) :
  exists es, parse_lines lines = Some es
    /\ url <$> es = Py.strip <$> filter (fun l => is_url_line l = true) lines
    /\ length es = length (filter (fun l => is_url_line l = true) lines).
Proof.
  unfold parse_lines.
  destruct (parse_loop_total lines (mkPstate [] None)) as [st Hst].
  rewrite Hst. simpl. eexists. split; [done|].
  pose proof (parse_loop_urls lines _ _ Hst) as H. simpl in H.
  split; [done|]. apply (f_equal length) in H. by rewrite !length_fmap in H.
Qed.

(** Blank lines, the header line and unrecognised # lines are transparent:
    taking one out of the input changes nothing in the result. *)
Theorem parse_lines_ignores_comments (pre post : list string) (c : string) :
  ignored_line c ->
  parse_lines (pre ++ c :: post) = parse_lines (pre ++ post).
Proof.
  intros Hc. unfold parse_lines. rewrite !parse_loop_app.
  destruct (parse_loop (mkPstate [] None) pre) as [st|]; [|done].
  simpl. by rewrite (parse_line_ignored st c Hc).
Qed.

Lemma parse_lines_ignores_comments_witness :
  parse_lines ["#EXTM3U"; "#EXTINF:-1,a"; "# a comment"; "  "; "http://a"]
  = parse_lines ["#EXTM3U"; "#EXTINF:-1,a"; "  "; "http://a"].
Proof.
  apply (parse_lines_ignores_comments ["#EXTM3U"; "#EXTINF:-1,a"] ["  "; "http://a"]
           "# a comment").
  right. repeat split; reflexivity.
Defined.

(** Of two metadata lines in a row only the second counts: the entry the
    first one started is dropped. *)
Theorem parse_lines_last_metadata_wins (pre post : list string) (m1 m2 : string) :
  Py.startswith (Py.strip m1) "#EXTINF:" = true ->
  Py.startswith (Py.strip m2) "#EXTINF:" = true ->
  parse_lines (pre ++ m1 :: m2 :: post) = parse_lines (pre ++ m2 :: post).
Proof.
  intros H1 H2. unfold parse_lines. rewrite !parse_loop_app.
  destruct (parse_loop (mkPstate [] None) pre) as [st|]; [|done].
  simpl.
  destruct (parse_line_metadata st m1 H1) as (c1 & -> & _).
  destruct (parse_line_metadata st m2 H2) as (c2 & Hst & Hany).
  simpl. by rewrite Hst, (Hany (mkPstate (entries_of st) (Some c1))).
Qed.

Lemma parse_lines_last_metadata_wins_witness :
  parse_lines ["#EXTINF:-1,first"; "#EXTINF:5,second"; "http://a"]
  = parse_lines ["#EXTINF:5,second"; "http://a"].
Proof.
  apply (parse_lines_last_metadata_wins [] ["http://a"]
           "#EXTINF:-1,first" "#EXTINF:5,second"); reflexivity.
Defined.

(** A playlist of bare URLs: when every line is a URL line, each line gives
    an entry named Unknown with the stripped line for URL and the defaults
    elsewhere. *)
Theorem parse_lines_bare_urls (lines : list string) :
  Forall (fun l => is_url_line l = true) lines ->
  parse_lines lines = Some ((fun l => new_entry "Unknown" (Py.strip l)) <$> lines).
Proof.
  intros H. unfold parse_lines.
  assert (Hgen : forall es,
    parse_loop (mkPstate es None) lines
    = Some (mkPstate (es ++ ((fun l => new_entry "Unknown" (Py.strip l)) <$> lines)) None)).
  { induction lines as [|l lines IH]; intros es; simpl.
    - by rewrite app_nil_r.
    - apply Forall_cons in H as [Hl H].
      destruct (is_url_line_true l Hl) as [Hne Hh].
      rewrite (parse_line_url _ l _ eq_refl Hne Hh). simpl.
      rewrite (IH H). by rewrite <- app_assoc. }
  by rewrite Hgen.
Qed.

Lemma parse_lines_bare_urls_witness :
  parse_lines ["http://a"; " rtsp://b "]
  = Some [new_entry "Unknown" "http://a"; new_entry "Unknown" "rtsp://b"].
Proof.
  apply (parse_lines_bare_urls ["http://a"; " rtsp://b "]).
  repeat constructor.
Defined.

Section OptionLine.

Lemma lower_length (s : string) : String.length (Py.lower s) = String.length s.
Proof. induction s as [|c s IH]; simpl; [done|]. by rewrite IH. Qed.

Lemma lower_char_nonspace (c : ascii) :
  Py.lower_char c = "h"%char -> Py.isspace c = false.
Proof. destruct c as [[] [] [] [] [] [] [] []]; vm_compute; congruence. Qed.

Lemma lower_char_sep (c : ascii) :
  Py.lower_char c <> "="%char -> differs "="%char c = true.
Proof. destruct c as [[] [] [] [] [] [] [] []]; vm_compute; congruence. Qed.

Lemma lower_differs (k : string) :
  Py.all (differs "="%char) (Py.lower k) = true -> Py.all (differs "="%char) k = true.
Proof.
  induction k as [|c k IH]; simpl; [done|].
  intros [Hc Hk]%andb_prop. rewrite (IH Hk), andb_true_r.
  apply lower_char_sep. intros Heq. rewrite Heq in Hc. done.
Qed.

Lemma rstrip_suffix (a b : string) :
  Py.rstrip (a +:+ b) = a +:+ b -> b <> "" -> Py.rstrip b = b.
Proof.
  intros H Hne. rewrite rstrip_app in H.
  destruct (Py.rstrip b) as [|c r] eqn:Hr.
  - exfalso. pose proof (rstrip_length a) as Hlen. rewrite H, slength_app in Hlen.
    destruct b; [done|]. simpl in Hlen. lia.
  - by apply String.app_inj in H.
Qed.

Lemma rstrip_idem (s : string) : Py.rstrip (Py.rstrip s) = Py.rstrip s.
Proof.
  induction s as [|c s IH]; simpl; [done|].
  destruct (Py.rstrip s) as [|d r] eqn:Hr.
  - destruct (Py.isspace c) eqn:Hc; simpl; [done|]. by rewrite Hc.
  - cbn [Py.rstrip]. cbn [Py.rstrip] in IH. by rewrite IH.
Qed.

Lemma strip_rstrip_idem (s : string) : Py.rstrip (Py.strip s) = Py.strip s.
Proof. unfold Py.strip. apply rstrip_idem. Qed.

End OptionLine.

(** The user-agent option. Its key is compared without regard to case, and
    its value is everything after the first = sign, later = signs
    included: a line that strips to #EXTVLCOPT: followed by a key whose
    lower case is http-user-agent, an = sign and a value sets the user agent
    of the entry in progress to that value. With no entry in progress the
    line changes nothing. *)
Theorem parse_line_user_agent (st : pstate) (l key value : string) :
  Py.strip l = "#EXTVLCOPT:" +:+ key +:+ "=" +:+ value ->
  Py.lower key = "http-user-agent" ->
  parse_line st l =
  Some (match current_entry st with
        | Some cur => mkPstate (entries_of st) (Some (set_user_agent value cur))
        | None => st
        end).
Proof.
  intros Hl Hkey. unfold parse_line. rewrite Hl.
  set (line := "#EXTVLCOPT:" +:+ key +:+ "=" +:+ value).
  assert (truthy line = true) as -> by reflexivity.
  assert (Py.startswith line "#EXTM3U" = false) as -> by reflexivity.
  assert (Py.startswith line "#EXTINF:" = false) as -> by reflexivity.
  assert (Py.startswith line "#EXTVLCOPT:" = true) as ->
    by apply (startswith_app "#EXTVLCOPT:" (key +:+ "=" +:+ value)).
  cbn [negb]. destruct (current_entry st) as [cur|]; [|done].
  change (Py.slice_from 11 line) with (key +:+ "=" +:+ value).
  assert (Hclean : Py.rstrip (key +:+ "=" +:+ value) = key +:+ "=" +:+ value).
  { apply (rstrip_suffix "#EXTVLCOPT:").
    - rewrite <- Hl. apply strip_rstrip_idem.
    - destruct key; done. }
  destruct key as [|c key]; [done|].
  assert (Py.isspace c = false) as Hc.
  { apply lower_char_nonspace. simpl in Hkey. by injection Hkey. }
  assert (Hopt : Py.strip (String c key +:+ "=" +:+ value) = String c key +:+ "=" +:+ value).
  { unfold Py.strip. cbn [String.append Py.lstrip]. rewrite Hc. exact Hclean. }
  rewrite Hopt.
  assert (Hlow : Py.startswith (Py.lower (String c key +:+ "=" +:+ value))
                   "http-user-agent=" = true).
  { rewrite lower_app, Hkey. apply (startswith_app "http-user-agent=" (Py.lower value)). }
  rewrite Hlow.
  assert (Hsplit : Py.split1 "="%char (String c key +:+ "=" +:+ value) !! 1%nat = Some value).
  { change (String c key +:+ "=" +:+ value) with (String c key +:+ String "=" value).
    rewrite split1_cut; [done|]. apply lower_differs. by rewrite Hkey. }
  by rewrite Hsplit.
Qed.

Lemma parse_line_user_agent_witness :
  parse_lines ["#EXTINF:-1,a"; "#EXTVLCOPT:HTTP-User-Agent=VLC/3.0 a=b"; "http://a"]
  = Some [set_user_agent "VLC/3.0 a=b" (new_entry "a" "http://a")].
Proof.
  unfold parse_lines. cbn [parse_loop].
  change (parse_line (mkPstate [] None) "#EXTINF:-1,a")
    with (Some (mkPstate [] (Some (new_entry "a" "")))).
  cbn [mbind option_bind].
  rewrite (parse_line_user_agent _ _ "HTTP-User-Agent" "VLC/3.0 a=b");
    [reflexivity | reflexivity | reflexivity].
Defined.
